(** * NetStack: a shallow embedding of [netstack.h], [address.hpp] and
    [socket.hpp], and the properties of the wrappers.

    The library is a thin layer over the Berkeley-sockets / Winsock calls.
    The embedding has three layers:

    - [Platform]: what the system headers contribute (constants of
      <sys/socket.h>, <climits>, [inet_pton], host byte order, the [_WIN32]
      branch of the build);
    - [Kernel]: the operating-system calls the wrappers forward to, as an
      interface over an abstract world;
    - the classes [Address] and [Socket] themselves, member by member. *)

From Stdlib Require Import ZArith List Bool Lia Ascii.
From Stdlib Require Import Strings.Byte.
From Stdlib Require String.
Import String.StringSyntax.
Delimit Scope string_scope with string.
Import ListNotations.

Local Open Scope Z_scope.

(** A C string ([const char*] up to its NUL). *)
Definition string : Set := String.string.
Bind Scope string_scope with string.

(** ** Bytes and raw memory *)

(** A [char], an element of a [std::string] or of raw object memory, is a
    [byte]. *)

Definition byte_of_Z (z : Z) : byte :=
  match Byte.of_N (Z.to_N (z mod 256)) with
  | Some b => b
  | None => x00
  end.

Definition Z_of_byte (b : byte) : Z := Z.of_N (Byte.to_N b).

(** The bytes of a string literal, without the terminating NUL. *)
Definition bytes_of_string (s : string) : list byte := String.list_byte_of_string s.

(** [N] zero bytes: what [x = {}] leaves in an [N]-byte aggregate and what
    [std::vector<char> v(N)] holds. *)
Definition zeroed (n : nat) : list byte := repeat x00 n.

(** [memcpy (mem + off, bs, |bs|)]. *)
Definition store_bytes (off : nat) (bs mem : list byte) : list byte :=
  firstn off mem ++ bs ++ skipn (off + length bs) mem.

Definition load_bytes (off len : nat) (mem : list byte) : list byte :=
  firstn len (skipn off mem).

(** What a read-style call leaves in the caller's buffer when it deposits
    [data] at its start: the bytes past the deposit keep their old value and
    the buffer keeps its size. *)
Definition poke (data buffer : list byte) : list byte :=
  firstn (length buffer) (data ++ skipn (length data) buffer).

(** ** 16-bit values *)

Definition to_u16 (z : Z) : Z := z mod 65536.

Definition bswap16 (z : Z) : Z :=
  Z.lor (Z.shiftl (Z.land z 255) 8) (Z.land (Z.shiftr z 8) 255).

(** ** Conversion to [int] *)

(** [int] has 32 bits on the platforms considered.  A [size_t] passed where
    a [const int] is expected is reduced modulo 2^32 into the range of
    [int]. *)
Definition INT_MAX : Z := 2147483647.

Definition to_int (z : Z) : Z := (z + 2147483648) mod 4294967296 - 2147483648.

(** ** The platform *)

(** Everything [address.hpp] and [socket.hpp] take from the system headers.
    None of it is defined by the repository. *)
Class Platform : Type := {
  _WIN32 : bool;                (**r the build takes the [#if defined(_WIN32)] branches *)
  big_endian : bool;            (**r host byte order *)
  AF_INET : Z;
  AF_INET6 : Z;
  SOCKET_ERROR : Z;
  CHAR_MAX : Z;                 (**r <climits> *)
  MSG_OOB : Z;
  MSG_PEEK : Z;
  MSG_DONTROUTE : Z;
  (** [inet_pton af src dst]: the status it returns and the bytes it writes
      at [dst]. *)
  inet_pton : Z -> string -> Z * list byte;
  AF_INET_range : 0 <= AF_INET < 65536;
  AF_INET6_range : 0 <= AF_INET6 < 65536;
  AF_distinct : AF_INET <> AF_INET6;
  CHAR_MAX_pos : 0 < CHAR_MAX
}.

(** [sizeof (sockaddr_storage)], and the offsets of the members the
    constructor writes: [sa_family] (an unsigned 16-bit field), [sin_port] and
    [sin6_port], [sin_addr], [sin6_addr].  Linux and Winsock agree on them. *)
Definition sizeof_sockaddr_storage : nat := 128.
Definition sa_family_off : nat := 0.
Definition sin_port_off : nat := 2.
Definition sin_addr_off : nat := 4.
Definition sin6_addr_off : nat := 8.

(** A member that a constructor may leave unassigned. *)
Inductive cell (A : Type) : Type :=
| Indeterminate
| Holds (a : A).
Arguments Indeterminate {A}.
Arguments Holds {A} a.

Section WithPlatform.
Context {P : Platform}.

(** A 16-bit member at [off], in host byte order. *)
Definition u16_bytes (v : Z) : list byte :=
  let hi := byte_of_Z (Z.shiftr (to_u16 v) 8) in
  let lo := byte_of_Z (to_u16 v) in
  if big_endian then [hi; lo] else [lo; hi].

Definition store_u16 (off : nat) (v : Z) (mem : list byte) : list byte :=
  store_bytes off (u16_bytes v) mem.

Definition load_u16 (off : nat) (mem : list byte) : Z :=
  match load_bytes off 2 mem with
  | [b0; b1] =>
      if big_endian then Z_of_byte b0 * 256 + Z_of_byte b1
      else Z_of_byte b1 * 256 + Z_of_byte b0
  | _ => 0
  end.

(** [htons] of <arpa/inet.h>. *)
Definition htons (hostshort : Z) : Z :=
  if big_endian then to_u16 hostshort else bswap16 (to_u16 hostshort).

(** ** [enum class AddressFamily] *)

(** The enumeration has underlying type [int]; the constructor of [Address]
    has a [default:] branch for the values that are not enumerators. *)
Definition AddressFamily : Type := Z.
Definition INET : AddressFamily := AF_INET.
Definition INET6 : AddressFamily := AF_INET6.

(** ** [class Address] *)

Record Address : Type := mkAddress {
  state_ : cell bool;
  address_ : list byte;         (**r [sockaddr_storage address_] *)
  length_ : Z                   (**r [socklen_t length_] *)
}.

(** [Address (family, ip, port)]. *)
Definition Address_ctor (family : AddressFamily) (ip : string) (port : Z) : Address :=
  let address_0 := zeroed sizeof_sockaddr_storage in
  let address_1 := store_u16 sa_family_off family address_0 in
  let sa_family := load_u16 sa_family_off address_1 in
  let length := Z.of_nat sizeof_sockaddr_storage in
  if family =? INET then
    let '(status, written) := inet_pton sa_family ip in
    let address_2 := store_bytes sin_addr_off written address_1 in
    if (status =? 0) || (status =? -1) then
      mkAddress (Holds false) address_2 length
    else
      mkAddress (Holds true) (store_u16 sin_port_off (htons port) address_2) length
  else if family =? INET6 then
    let '(status, written) := inet_pton sa_family ip in
    let address_2 := store_bytes sin6_addr_off written address_1 in
    if (status =? 0) || (status =? -1) then
      mkAddress (Holds false) address_2 length
    else
      mkAddress (Holds true) (store_u16 sin_port_off (htons port) address_2) length
  else
    mkAddress (Holds false) address_1 length.

(** [Address ()].  The constructor has no initialiser for [state_] and its
    body does not assign it: the member keeps what the object's storage held
    before, [prior] ([Indeterminate] for automatic and dynamic storage). *)
Definition Address_default (prior : cell bool) : Address :=
  mkAddress prior (zeroed sizeof_sockaddr_storage) 0.



(** [operator bool]. *)
Definition operator_bool (a : Address) : cell bool := state_ a.

(** [name ()] and [operator sockaddr*]: the storage itself. *)
Definition name (a : Address) : list byte := address_ a.

(** [size ()] and [operator socklen_t]. *)
Definition size (a : Address) : Z := length_ a.

(** Where the binary address of a family lives in the storage: [sin_addr]
    or [sin6_addr]. *)
Definition addr_off (family : AddressFamily) : nat :=
  if family =? INET then sin_addr_off else sin6_addr_off.

(** The text [ip] is an address of [family] when [inet_pton] returns 1; it
    fails to parse when [inet_pton] returns one of its two failure values. *)
Definition parses (family : AddressFamily) (ip : string) : Prop :=
  fst (inet_pton family ip) = 1.

Definition parse_fails (family : AddressFamily) (ip : string) : Prop :=
  fst (inet_pton family ip) = 0 \/ fst (inet_pton family ip) = -1.

(** The binary form of [ip]: what [inet_pton] writes at its destination. *)
Definition binary_form (family : AddressFamily) (ip : string) : list byte :=
  snd (inet_pton family ip).

End WithPlatform.

(** ** A reference [inet_pton]

    The text-to-binary conversion of <arpa/inet.h>, for the platform
    instances below: dotted-decimal IPv4 (four octets 0..255, no leading
    zero), and IPv6 in groups of one to four hexadecimal digits with at most
    one [::] and an optional trailing dotted quad.  It returns 1 and the
    binary address, 0 for text that is not an address of the family, and -1
    for a family that is not supported. *)
Module RefInetPton.

Definition code (c : ascii) : Z := Z.of_N (N_of_ascii c).

Definition is_digit (c : ascii) : bool := (48 <=? code c) && (code c <=? 57).

Definition hex_val (c : ascii) : option Z :=
  let n := code c in
  if (48 <=? n) && (n <=? 57) then Some (n - 48)
  else if (97 <=? n) && (n <=? 102) then Some (n - 87)
  else if (65 <=? n) && (n <=? 70) then Some (n - 55)
  else None.

Fixpoint chars (s : string) : list ascii :=
  match s with
  | String.EmptyString => []
  | String.String c s' => c :: chars s'
  end.

(** The fields of [s] between occurrences of [sep]; never empty. *)
Fixpoint split_on (sep : ascii) (s : list ascii) : list (list ascii) :=
  match s with
  | [] => [[]]
  | c :: s' =>
      if Ascii.eqb c sep then [] :: split_on sep s'
      else match split_on sep s' with
           | [] => [[c]]
           | field :: fields => (c :: field) :: fields
           end
  end.

Definition is_nil {A} (l : list A) : bool :=
  match l with [] => true | _ => false end.

Definition decimal_octet (tok : list ascii) : option Z :=
  match tok with
  | [] => None
  | c :: rest =>
      if forallb is_digit tok
         && (Nat.leb (length tok) 3)
         && negb (Ascii.eqb c "0" && negb (is_nil rest))
      then
        let v := fold_left (fun acc d => acc * 10 + (code d - 48)) tok 0 in
        if v <=? 255 then Some v else None
      else None
  end.

Fixpoint sequence {A} (l : list (option A)) : option (list A) :=
  match l with
  | [] => Some []
  | None :: _ => None
  | Some a :: l' => option_map (cons a) (sequence l')
  end.

Definition parse_ipv4 (s : list ascii) : option (list byte) :=
  match sequence (map decimal_octet (split_on "." s)) with
  | Some [a; b; c; d] => Some (map byte_of_Z [a; b; c; d])
  | _ => None
  end.

Definition hex_group (tok : list ascii) : option Z :=
  match tok with
  | [] => None
  | _ =>
      if Nat.leb (length tok) 4 then
        option_map (fun ds => fold_left (fun acc d => acc * 16 + d) ds 0)
                   (sequence (map hex_val tok))
      else None
  end.

(** A leading [::] becomes one empty field, the gap; a lone leading [:] is
    refused (and so is the empty text). *)
Definition trim_front (toks : list (list ascii)) : option (list (list ascii)) :=
  match toks with
  | [] :: [] :: rest => Some ([] :: rest)
  | [] :: _ => None
  | _ => Some toks
  end.

Definition u16_be (g : Z) : list byte := [byte_of_Z (g / 256); byte_of_Z g].

(** The groups after the gap, or all of them: the last field may be a dotted
    quad. *)
Fixpoint tail_groups (toks : list (list ascii)) : option (list byte) :=
  match toks with
  | [] => Some []
  | [t] =>
      if existsb (Ascii.eqb ".") t then parse_ipv4 t
      else option_map u16_be (hex_group t)
  | t :: rest =>
      match hex_group t, tail_groups rest with
      | Some g, Some bs => Some (u16_be g ++ bs)
      | _, _ => None
      end
  end.

Definition head_groups (toks : list (list ascii)) : option (list byte) :=
  option_map (fun gs => flat_map u16_be gs) (sequence (map hex_group toks)).

(** [toks] up to its first empty field, and what follows it. *)
Fixpoint break_gap (toks : list (list ascii))
  : list (list ascii) * option (list (list ascii)) :=
  match toks with
  | [] => ([], None)
  | [] :: rest => ([], Some rest)
  | t :: rest => let '(before, after) := break_gap rest in (t :: before, after)
  end.

Definition parse_ipv6 (s : list ascii) : option (list byte) :=
  match trim_front (split_on ":" s) with
  | None => None
  | Some toks =>
      match trim_front (rev toks) with
      | None => None
      | Some rtoks =>
          match break_gap (rev rtoks) with
          | (all, None) =>
              match tail_groups all with
              | Some bs => if Nat.eqb (length bs) 16 then Some bs else None
              | None => None
              end
          | (before, Some after) =>
              match head_groups before, tail_groups after with
              | Some hd, Some tl =>
                  if Nat.leb (length hd + length tl) 14
                  then Some (hd ++ zeroed (16 - (length hd + length tl)) ++ tl)
                  else None
              | _, _ => None
              end
          end
      end
  end.

Definition inet_pton (af_inet af_inet6 : Z) (af : Z) (src : string) : Z * list byte :=
  if af =? af_inet then
    match parse_ipv4 (chars src) with
    | Some bs => (1, bs)
    | None => (0, [])
    end
  else if af =? af_inet6 then
    match parse_ipv6 (chars src) with
    | Some bs => (1, bs)
    | None => (0, [])
    end
  else (-1, []).

End RefInetPton.

(** ** The operating system *)

(** [SOCKET]: [typedef int SOCKET] unless the platform headers define it. *)
Definition SOCKET : Type := Z.

(** How a call ends: it returns, it blocks for ever (a blocking socket with
    nothing to deliver), or the model's loop bound ran out. *)
Inductive result (A : Type) : Type :=
| Returns (a : A)
| Blocks
| OutOfFuel.
Arguments Returns {A} a.
Arguments Blocks {A}.
Arguments OutOfFuel {A}.

(** A computation over the state of the world [W]. *)
Definition OS (W A : Type) : Type := W -> result (A * W).

Definition ret {W A} (a : A) : OS W A := fun w => Returns (a, w).

Definition bind {W A B} (c : OS W A) (k : A -> OS W B) : OS W B :=
  fun w =>
    match c w with
    | Returns (a, w') => k a w'
    | Blocks => Blocks
    | OutOfFuel => OutOfFuel
    end.

(** A call that always returns. *)
Definition total {W A} (f : W -> A * W) : OS W A := fun w => Returns (f w).

Notation "x <- c ;; k" := (bind c (fun x => k))
  (at level 61, c at next level, right associativity).
Notation "' pat <- c ;; k" := (bind c (fun x => match x with pat => k end))
  (at level 61, pat pattern, c at next level, right associativity).

(** The value a call returned and the world it left, when it returned. *)
Definition returned {W A} (r : result (A * W)) : result A :=
  match r with
  | Returns (a, _) => Returns a
  | Blocks => Blocks
  | OutOfFuel => OutOfFuel
  end.

Definition world_after {W A} (r : result (A * W)) : result W :=
  match r with
  | Returns (_, w) => Returns w
  | Blocks => Blocks
  | OutOfFuel => OutOfFuel
  end.

Definition result_map {A B} (f : A -> B) (r : result A) : result B :=
  match r with
  | Returns a => Returns (f a)
  | Blocks => Blocks
  | OutOfFuel => OutOfFuel
  end.

(** The status of a read: the first component of what it returned. *)
Definition recv_status {W} (r : result ((Z * list byte) * W)) : result Z :=
  result_map fst (returned r).

Definition recvfrom_status {W}
    (r : result ((Z * list byte * option (list byte) * option Z) * W)) : result Z :=
  result_map (fun x => fst (fst (fst x))) (returned r).

(** The system calls behind the wrappers.  A pointer argument is the memory
    it points to ([None] for [nullptr]); a call that writes through a pointer
    returns what it wrote.  The status is taken at the type the wrappers
    store it in, [int]: Winsock declares these calls [int], and a POSIX
    kernel never transfers more than [INT_MAX] bytes in one call, so the
    conversion from [ssize_t] keeps the value. *)
Class Kernel (W : Type) : Type := {
  (** [socket (af, type, protocol)] *)
  sys_socket : Z -> Z -> Z -> W -> SOCKET * W;
  (** [recv (s, buf, len, flags)]: status and the bytes deposited at [buf] *)
  sys_recv : SOCKET -> Z -> Z -> OS W (Z * list byte);
  (** [recvfrom (s, buf, len, flags, from, fromlen)]: status, the bytes
      deposited at [buf], and the new [*from] and [*fromlen] *)
  sys_recvfrom : SOCKET -> Z -> Z -> option (list byte) -> option Z ->
                 OS W (Z * list byte * option (list byte) * option Z);
  (** [send (s, buf, len, flags)] *)
  sys_send : SOCKET -> list byte -> Z -> Z -> OS W Z;
  (** [sendto (s, buf, len, flags, to, tolen)] *)
  sys_sendto : SOCKET -> list byte -> Z -> Z -> option (list byte) -> Z -> OS W Z;
  (** [shutdown (s, how)] *)
  sys_shutdown : SOCKET -> Z -> W -> Z * W;
  (** [close (fd)] and Winsock's [closesocket (s)] *)
  sys_close : SOCKET -> W -> Z * W;
  sys_closesocket : SOCKET -> W -> Z * W
}.

(** ** A kernel that keeps a log of the calls it receives *)

Inductive Call : Type :=
| CallSocket (af type protocol : Z)
| CallRecv (s : SOCKET) (len flags : Z)
| CallRecvFrom (s : SOCKET) (len flags : Z)
| CallSend (s : SOCKET) (len flags : Z)
| CallSendTo (s : SOCKET) (len flags : Z)
| CallShutdown (s : SOCKET) (how : Z)
| CallClose (s : SOCKET)
| CallCloseSocket (s : SOCKET).

(** [c], then whatever the call does, on a world paired with the log. *)
Definition logged {W A} (c : Call) (f : OS W A) : OS (W * list Call) A :=
  fun wl =>
    match f (fst wl) with
    | Returns (a, w') => Returns (a, (w', snd wl ++ [c]))
    | Blocks => Blocks
    | OutOfFuel => OutOfFuel
    end.

Definition logged_total {W A} (c : Call) (f : W -> A * W)
  : W * list Call -> A * (W * list Call) :=
  fun wl => let '(a, w') := f (fst wl) in (a, (w', snd wl ++ [c])).

#[export] Instance logging {W : Type} (K : Kernel W) : Kernel (W * list Call) := {
  sys_socket af type protocol :=
    logged_total (CallSocket af type protocol) (sys_socket af type protocol);
  sys_recv s len flags := logged (CallRecv s len flags) (sys_recv s len flags);
  sys_recvfrom s len flags from fromlen :=
    logged (CallRecvFrom s len flags) (sys_recvfrom s len flags from fromlen);
  sys_send s buf len flags := logged (CallSend s len flags) (sys_send s buf len flags);
  sys_sendto s buf len flags to tolen :=
    logged (CallSendTo s len flags) (sys_sendto s buf len flags to tolen);
  sys_shutdown s how := logged_total (CallShutdown s how) (sys_shutdown s how);
  sys_close s := logged_total (CallClose s) (sys_close s);
  sys_closesocket s := logged_total (CallCloseSocket s) (sys_closesocket s)
}.

(** How many times the log closes descriptor [fd]. *)
Definition closes_descriptor (fd : SOCKET) (c : Call) : bool :=
  match c with
  | CallClose s | CallCloseSocket s => s =? fd
  | _ => false
  end.

Definition close_count (fd : SOCKET) (log : list Call) : nat :=
  length (filter (closes_descriptor fd) log).

(** ** [netstack.h] *)

Section WithKernel.
Context {P : Platform} {W : Type} {K : Kernel W}.

(** [nsCloseSocket (socket)] *)
Definition nsCloseSocket (socket : SOCKET) : W -> unit * W :=
  fun w =>
    if _WIN32 then (tt, snd (sys_closesocket socket w))
    else (tt, snd (sys_close socket w)).

(** ** [socket.hpp]: the flag enumerations *)

Inductive ReceiveFlags : Set := RF_NONE | RF_OOB | RF_PEEK | RF_WAITALL.

Definition ReceiveFlags_int (f : ReceiveFlags) : Z :=
  match f with
  | RF_NONE => 0
  | RF_OOB => MSG_OOB
  | RF_PEEK => MSG_PEEK
  | RF_WAITALL => 3
  end.

Inductive SendFlags : Set := SF_NONE | SF_DONTROUTE | SF_OOB.

Definition SendFlags_int (f : SendFlags) : Z :=
  match f with
  | SF_NONE => 0
  | SF_DONTROUTE => MSG_DONTROUTE
  | SF_OOB => MSG_OOB
  end.

Inductive ShutdownFlags : Set := RECEIVE | SEND | BOTH.

Definition ShutdownFlags_int (f : ShutdownFlags) : Z :=
  match f with
  | RECEIVE => 0
  | SEND => 1
  | BOTH => 2
  end.

(** ** [class Socket] *)

Record Socket : Type := mkSocket { _socket : SOCKET }.

(** [Socket (int af, int type, int protocol)] *)
Definition Socket_open (af type protocol : Z) : W -> Socket * W :=
  fun w => let '(fd, w') := sys_socket af type protocol w in (mkSocket fd, w').

(** [Socket (const SOCKET socket)] *)
Definition Socket_wrap (socket : SOCKET) : Socket := mkSocket socket.

(** The copy constructor.  The class declares none and deletes none (only
    [Socket ()] is deleted), so the language supplies the member-wise one. *)
Definition Socket_copy (other : Socket) : Socket := mkSocket (_socket other).

(** [int Receive (char* buffer, const int length, const int flags)]: the
    status, and the buffer as the call left it. *)
Definition Receive (s : Socket) (buffer : list byte) (length flags : Z)
  : OS W (Z * list byte) :=
  '(status, data) <- sys_recv (_socket s) length flags ;;
  ret (status, poke data buffer).

(** The [do ... while] of [int Receive (std::string& buffer, ReceiveFlags)]:
    [what] is the chunk vector, whose size stays [CHAR_MAX]. *)
Fixpoint Receive_loop (fuel : nat) (s : Socket) (flags : ReceiveFlags)
    (what buffer : list byte) : OS W (Z * list byte) :=
  match fuel with
  | O => fun _ => OutOfFuel
  | S fuel' =>
      '(received, what') <-
         Receive s what (Z.of_nat (length what)) (ReceiveFlags_int flags) ;;
      let buffer' := buffer ++ what' in
      if received =? CHAR_MAX
      then Receive_loop fuel' s flags what' buffer'
      else ret (received, buffer')
  end.

(** [int Receive (std::string& buffer, const ReceiveFlags flags)]: the
    value returned and the string as the call left it. *)
Definition Receive_string (fuel : nat) (s : Socket) (buffer : list byte)
    (flags : ReceiveFlags) : OS W (Z * list byte) :=
  Receive_loop fuel s flags (zeroed (Z.to_nat CHAR_MAX)) buffer.

(** [int ReceiveFrom (char*, const size_t, const int, sockaddr*, socklen_t* )] *)
Definition ReceiveFrom (s : Socket) (buffer : list byte) (length flags : Z)
    (from : option (list byte)) (fromLength : option Z)
  : OS W (Z * list byte * option (list byte) * option Z) :=
  '(status, data, from', fromLength') <-
     sys_recvfrom (_socket s) length flags from fromLength ;;
  ret (status, poke data buffer, from', fromLength').

(** [int Send (const char* buffer, const int length, const int flags)] *)
Definition Send (s : Socket) (buffer : list byte) (length flags : Z) : OS W Z :=
  status <- sys_send (_socket s) buffer length flags ;;
  ret status.

(** [int Send (const std::string& buffer, const SendFlags flags)]:
    [buffer.length ()], a [size_t], becomes the [const int length]. *)
Definition Send_string (s : Socket) (buffer : list byte) (flags : SendFlags) : OS W Z :=
  Send s (buffer ++ [x00]) (to_int (Z.of_nat (length buffer))) (SendFlags_int flags).

(** [int SendTo (const char*, const int, const int, sockaddr*, socklen_t)] *)
Definition SendTo (s : Socket) (buffer : list byte) (length flags : Z)
    (to : option (list byte)) (toLength : Z) : OS W Z :=
  status <- sys_sendto (_socket s) buffer length flags to toLength ;;
  ret status.

(** [int SendTo (const std::string&, const SendFlags, Address* )]:
    [buffer.size ()], a [size_t], becomes the [const int length]. *)
Definition SendTo_string (s : Socket) (buffer : list byte) (flags : SendFlags)
    (address : option Address) : OS W Z :=
  SendTo s (buffer ++ [x00]) (to_int (Z.of_nat (length buffer))) (SendFlags_int flags)
         (option_map name address)
         (match address with None => 0 | Some a => size a end).

(** [bool Shutdown (const ShutdownFlags flag)] *)
Definition Shutdown (s : Socket) (flag : ShutdownFlags) : W -> bool * W :=
  fun w =>
    let '(status, w') := sys_shutdown (_socket s) (ShutdownFlags_int flag) w in
    (negb (status =? SOCKET_ERROR), w').

(** [~Socket ()] *)
Definition Socket_dtor (s : Socket) : W -> unit * W :=
  nsCloseSocket (_socket s).

(** The end of a block that declared [objs], in this order: the objects are
    destroyed in the reverse order. *)
Definition leave_scope (objs : list Socket) (w : W) : W :=
  fold_right (fun s w' => snd (Socket_dtor s w')) w objs.

(** The call the destructor of a [Socket] holding [fd] makes. *)
Definition close_call (fd : SOCKET) : Call :=
  if _WIN32 then CallCloseSocket fd else CallClose fd.

(** [n] consecutive [recv] calls of [len] bytes on [fd], as the kernel
    answers them: their results, in order, and the world they leave. *)
Fixpoint reads (n : nat) (fd : SOCKET) (len flags : Z) : OS W (list (Z * list byte)) :=
  match n with
  | O => ret []
  | S n' =>
      r <- sys_recv fd len flags ;;
      rs <- reads n' fd len flags ;;
      ret (r :: rs)
  end.

(** What the loop appends to the string, given the chunk vector before the
    first read and the results of the reads: the whole vector after each. *)
Fixpoint appended (what : list byte) (rs : list (Z * list byte)) : list byte :=
  match rs with
  | [] => []
  | (_, data) :: rs' => poke data what ++ appended (poke data what) rs'
  end.

End WithKernel.

(** Every descriptor wrapped by one of [objs] is closed exactly once when
    the block that declared them ends in world [w]: the log of the calls
    made while the objects are destroyed closes it once. *)
Definition closed_exactly_once {P : Platform} {W : Type} {K : Kernel W}
    (objs : list Socket) (w : W) : Prop :=
  forall s, In s objs ->
    close_count (_socket s)
      (snd (leave_scope (K := logging K) objs (w, []))) = 1%nat.

(** ** A connected pair of stream sockets on the loopback interface

    Two descriptors, each with the bytes in flight towards it.  A read takes
    what is there, up to the length asked for; with nothing in flight it
    returns 0 once the peer has shut down its sending side and blocks
    otherwise.  A write queues its bytes for the peer.  Flags are not
    interpreted. *)
Module Loopback.

Record world : Type := mkWorld {
  fd_a : SOCKET;
  fd_b : SOCKET;
  to_a : list byte;             (**r bytes sent by B, not yet read by A *)
  to_b : list byte;             (**r bytes sent by A, not yet read by B *)
  a_done : bool;                (**r A has shut down sending, or is closed *)
  b_done : bool
}.

(** A fresh connection between descriptors 3 and 4. *)
Definition connected : world := mkWorld 3 4 [] [] false false.

Definition deliver (inbox : list byte) (peer_done : bool) (len : Z)
  : result ((Z * list byte) * list byte) :=
  match inbox with
  | [] => if peer_done then Returns ((0, []), []) else Blocks
  | _ =>
      let n := Nat.min (Z.to_nat len) (length inbox) in
      Returns ((Z.of_nat n, firstn n inbox), skipn n inbox)
  end.

Definition recv (s : SOCKET) (len flags : Z) : OS world (Z * list byte) :=
  fun w =>
    if s =? fd_a w then
      match deliver (to_a w) (b_done w) len with
      | Returns (r, rest) =>
          Returns (r, mkWorld (fd_a w) (fd_b w) rest (to_b w) (a_done w) (b_done w))
      | Blocks => Blocks
      | OutOfFuel => OutOfFuel
      end
    else if s =? fd_b w then
      match deliver (to_b w) (a_done w) len with
      | Returns (r, rest) =>
          Returns (r, mkWorld (fd_a w) (fd_b w) (to_a w) rest (a_done w) (b_done w))
      | Blocks => Blocks
      | OutOfFuel => OutOfFuel
      end
    else Returns ((-1, []), w).

Definition send (s : SOCKET) (buf : list byte) (len flags : Z) : OS world Z :=
  fun w =>
    let payload := firstn (Z.to_nat len) buf in
    if s =? fd_a w then
      if a_done w then Returns (-1, w)
      else Returns (Z.of_nat (length payload),
                    mkWorld (fd_a w) (fd_b w) (to_a w) (to_b w ++ payload)
                            (a_done w) (b_done w))
    else if s =? fd_b w then
      if b_done w then Returns (-1, w)
      else Returns (Z.of_nat (length payload),
                    mkWorld (fd_a w) (fd_b w) (to_a w ++ payload) (to_b w)
                            (a_done w) (b_done w))
    else Returns (-1, w).

(** [shutdown] with [how] 1 or 2, and [close], end the sending side. *)
Definition finish (s : SOCKET) (w : world) : Z * world :=
  if s =? fd_a w then
    (0, mkWorld (fd_a w) (fd_b w) (to_a w) (to_b w) true (b_done w))
  else if s =? fd_b w then
    (0, mkWorld (fd_a w) (fd_b w) (to_a w) (to_b w) (a_done w) true)
  else (-1, w).

Definition shutdown (s : SOCKET) (how : Z) (w : world) : Z * world :=
  if (how =? 1) || (how =? 2) then finish s w
  else if how =? 0 then
    (if (s =? fd_a w) || (s =? fd_b w) then 0 else -1, w)
  else (-1, w).

#[export] Instance kernel : Kernel world := {
  sys_socket _ _ _ w := (-1, w);
  sys_recv := recv;
  sys_recvfrom s len flags from fromlen :=
    '(status, data) <- recv s len flags ;; ret (status, data, from, fromlen);
  sys_send := send;
  sys_sendto s buf len flags _ _ := send s buf len flags;
  sys_shutdown := shutdown;
  sys_close := finish;
  sys_closesocket := finish
}.

End Loopback.

(** ** Platforms *)

Module Platforms.

#[refine] Instance linux_x86_64 : Platform := {
  _WIN32 := false; big_endian := false;
  AF_INET := 2; AF_INET6 := 10; SOCKET_ERROR := -1; CHAR_MAX := 127;
  MSG_OOB := 1; MSG_PEEK := 2; MSG_DONTROUTE := 4;
  inet_pton := RefInetPton.inet_pton 2 10
}.
Proof. all: lia. Defined.

#[refine] Instance win32_x86_64 : Platform := {
  _WIN32 := true; big_endian := false;
  AF_INET := 2; AF_INET6 := 23; SOCKET_ERROR := -1; CHAR_MAX := 127;
  MSG_OOB := 1; MSG_PEEK := 2; MSG_DONTROUTE := 4;
  inet_pton := RefInetPton.inet_pton 2 23
}.
Proof. all: lia. Defined.

(** A big-endian host whose plain [char] is unsigned. *)
#[refine] Instance linux_s390x : Platform := {
  _WIN32 := false; big_endian := true;
  AF_INET := 2; AF_INET6 := 10; SOCKET_ERROR := -1; CHAR_MAX := 255;
  MSG_OOB := 1; MSG_PEEK := 2; MSG_DONTROUTE := 4;
  inet_pton := RefInetPton.inet_pton 2 10
}.
Proof. all: lia. Defined.

End Platforms.

(** ** A round trip over the loopback pair

    Endpoint A (descriptor 3) sends [payload] with [Send (const
    std::string&)]; endpoint B (descriptor 4) then calls the bulk [Receive]
    on an empty string.  With [then_shutdown], A calls [Shutdown (SEND)]
    between the two.  The result is what B's [Receive] returned and the
    string it filled. *)
Definition send_then_receive {P : Platform} (fuel : nat) (payload : list byte)
    (then_shutdown : bool) : result (Z * list byte) :=
  returned
    ((_ <- Send_string (K := Loopback.kernel) (Socket_wrap 3) payload SF_NONE ;;
      _ <- (if then_shutdown
            then total (Shutdown (K := Loopback.kernel) (Socket_wrap 3) SEND)
            else ret true) ;;
      Receive_string (K := Loopback.kernel) fuel (Socket_wrap 4) [] RF_NONE)
       Loopback.connected).

(** ** Lifetimes *)

(** A block that declares one [Socket (af, type, protocol)] and ends: the
    constructor, then the destructor. *)
Definition open_close {P : Platform} {W : Type} {K : Kernel W}
    (af type protocol : Z) (w : W) : W :=
  let '(s, w1) := Socket_open af type protocol w in
  snd (Socket_dtor s w1).

(** [n] such blocks, one after the other. *)
Fixpoint open_close_cycles {P : Platform} {W : Type} {K : Kernel W}
    (n : nat) (af type protocol : Z) (w : W) : W :=
  match n with
  | O => w
  | S n' => open_close_cycles n' af type protocol (open_close af type protocol w)
  end.

(** The descriptors [socket] returns to the constructors of these [n]
    blocks, in order, as the kernel answers from world [w]. *)
Fixpoint opened_descriptors {P : Platform} {W : Type} {K : Kernel W}
    (n : nat) (af type protocol : Z) (w : W) : list SOCKET :=
  match n with
  | O => []
  | S n' =>
      let '(fd, w1) := sys_socket af type protocol w in
      fd :: opened_descriptors n' af type protocol (snd (nsCloseSocket fd w1))
  end.


(** * Properties *)

(** ** Raw memory *)

Lemma Z_of_byte_of_Z (z : Z) : Z_of_byte (byte_of_Z z) = z mod 256.
Proof.
  unfold Z_of_byte, byte_of_Z.
  assert (Hr : 0 <= z mod 256 < 256) by (apply Z.mod_pos_bound; lia).
  destruct (Byte.of_N (Z.to_N (z mod 256))) as [b|] eqn:E.
  - apply Byte.to_of_N in E. rewrite E. lia.
  - apply Byte.of_N_None_iff in E. lia.
Qed.

Lemma byte_of_Z_mod (z : Z) : byte_of_Z (z mod 256) = byte_of_Z z.
Proof. unfold byte_of_Z. now rewrite Z.mod_mod by lia. Qed.

Lemma bswap16_arith (z : Z) :
  0 <= z < 65536 -> bswap16 z = (z mod 256) * 256 + z / 256.
Proof.
  intros H. unfold bswap16.
  assert (Hdisj : Z.land (Z.shiftl (Z.land z 255) 8) (Z.land (Z.shiftr z 8) 255) = 0).
  { apply Z.bits_inj'. intros n Hn.
    rewrite Z.land_spec, Z.bits_0.
    destruct (Z.ltb_spec n 8).
    - rewrite Z.shiftl_spec_low by lia. reflexivity.
    - change 255 with (Z.ones 8) at 2.
      rewrite (Z.land_spec _ (Z.ones 8)), Z.ones_spec_high by lia.
      now rewrite !andb_false_r. }
  rewrite <- Z.lxor_lor, <- Z.add_nocarry_lxor by exact Hdisj.
  change 255 with (Z.ones 8). rewrite !Z.land_ones by lia.
  rewrite Z.shiftr_div_pow2, Z.shiftl_mul_pow2 by lia.
  change (2 ^ 8) with 256.
  rewrite (Z.mod_small (z / 256)); [reflexivity|].
  split; [apply Z.div_pos; lia | apply Z.div_lt_upper_bound; lia].
Qed.

Lemma to_int_small (z : Z) : -2147483648 <= z <= INT_MAX -> to_int z = z.
Proof.
  unfold to_int, INT_MAX. intros H. rewrite Z.mod_small by lia. lia.
Qed.

Example to_int_wraps :
  to_int 130 = 130 /\ to_int (4294967296 + 130) = 130 /\
  to_int 2147483648 = -2147483648.
Proof. repeat split. Qed.

Lemma load_store_same (off : nat) (bs mem : list byte) :
  (off <= length mem)%nat ->
  load_bytes off (length bs) (store_bytes off bs mem) = bs.
Proof.
  intros H. unfold load_bytes, store_bytes.
  rewrite skipn_app, length_firstn, Nat.min_l by exact H.
  rewrite Nat.sub_diag, skipn_all2 by (rewrite length_firstn; lia).
  cbn [skipn app]. rewrite firstn_app, Nat.sub_diag, firstn_all. cbn [firstn].
  apply app_nil_r.
Qed.

Lemma load_prefix (off len : nat) (pre x : list byte) :
  (off + len <= length pre)%nat ->
  load_bytes off len (pre ++ x) = load_bytes off len pre.
Proof.
  intros H. unfold load_bytes.
  rewrite skipn_app, firstn_app, length_skipn.
  replace (off - length pre)%nat with 0%nat by lia.
  replace (len - (length pre - off))%nat with 0%nat by lia.
  cbn [skipn firstn]. apply app_nil_r.
Qed.

Lemma load_store_before (off len off' : nat) (bs mem : list byte) :
  (off + len <= off')%nat -> (off' <= length mem)%nat ->
  load_bytes off len (store_bytes off' bs mem) = load_bytes off len mem.
Proof.
  intros H1 H2. unfold store_bytes.
  assert (Hl : length (firstn off' mem) = off')
    by (rewrite length_firstn; lia).
  rewrite load_prefix by lia.
  rewrite <- (firstn_skipn off' mem) at 2.
  now rewrite load_prefix by lia.
Qed.

Lemma load_store_after (off len off' : nat) (bs mem : list byte) :
  (off' + length bs <= off)%nat -> (off' <= length mem)%nat ->
  load_bytes off len (store_bytes off' bs mem) = load_bytes off len mem.
Proof.
  intros H1 H2. unfold load_bytes, store_bytes. f_equal.
  rewrite !skipn_app.
  rewrite length_firstn, Nat.min_l by exact H2.
  rewrite (skipn_all2 (firstn off' mem)) by (rewrite length_firstn; lia).
  rewrite (skipn_all2 bs) by lia.
  cbn [app]. rewrite skipn_skipn. f_equal. lia.
Qed.

Lemma length_store_bytes (off : nat) (bs mem : list byte) :
  (off + length bs <= length mem)%nat ->
  length (store_bytes off bs mem) = length mem.
Proof.
  intros H. unfold store_bytes.
  rewrite !length_app, length_firstn, length_skipn. lia.
Qed.

Lemma length_poke (data buffer : list byte) :
  length (poke data buffer) = length buffer.
Proof.
  unfold poke. rewrite length_firstn, length_app, length_skipn. lia.
Qed.

Section AddressProperties.
Context {P : Platform}.

Lemma length_u16_bytes (v : Z) : length (u16_bytes v) = 2%nat.
Proof. unfold u16_bytes. destruct big_endian; reflexivity. Qed.

Lemma load_bytes_store_u16 (off : nat) (v : Z) (mem : list byte) :
  (off <= length mem)%nat ->
  load_bytes off 2 (store_u16 off v mem) = u16_bytes v.
Proof.
  intros H. unfold store_u16.
  generalize (length_u16_bytes v). generalize (u16_bytes v).
  intros bs <-. apply load_store_same, H.
Qed.

Lemma load_store_u16 (off : nat) (v : Z) (mem : list byte) :
  (off <= length mem)%nat ->
  load_u16 off (store_u16 off v mem) = to_u16 v.
Proof.
  intros H. unfold load_u16, store_u16.
  rewrite <- (length_u16_bytes v), load_store_same by exact H.
  assert (Hr : 0 <= to_u16 v < 65536) by (apply Z.mod_pos_bound; lia).
  unfold u16_bytes.
  destruct big_endian; rewrite !Z_of_byte_of_Z, Z.shiftr_div_pow2 by lia;
    change (2 ^ 8) with 256;
    rewrite (Z.mod_small (to_u16 v / 256)) by
      (split; [apply Z.div_pos; lia | apply Z.div_lt_upper_bound; lia]);
    pose proof (Z.div_mod (to_u16 v) 256); lia.
Qed.

(** The bytes [htons] leaves in a 16-bit member are the high byte then the
    low byte, whatever the host order. *)
Lemma u16_bytes_htons (port : Z) :
  0 <= port < 65536 ->
  u16_bytes (htons port) = [byte_of_Z (port / 256); byte_of_Z port].
Proof.
  intros H. unfold u16_bytes, htons, to_u16.
  destruct big_endian.
  - rewrite Z.mod_mod, (Z.mod_small port) by lia.
    now rewrite Z.shiftr_div_pow2 by lia.
  - rewrite (Z.mod_small port 65536) by lia.
    rewrite bswap16_arith by exact H.
    assert (Hq : 0 <= port / 256 < 256)
      by (split; [apply Z.div_pos; lia | apply Z.div_lt_upper_bound; lia]).
    assert (Hm : 0 <= port mod 256 < 256) by (apply Z.mod_pos_bound; lia).
    rewrite (Z.mod_small (_ + _) 65536) by lia.
    rewrite Z.shiftr_div_pow2 by lia. change (2 ^ 8) with 256.
    f_equal; [|f_equal].
    + rewrite <- byte_of_Z_mod.
      rewrite Z.add_comm, Z.mod_add, Z.mod_small by lia. reflexivity.
    + rewrite Z.add_comm, Z.div_add, Z.div_small by lia.
      apply byte_of_Z_mod.
Qed.

Lemma htons_range (port : Z) : 0 <= port < 65536 -> 0 <= htons port < 65536.
Proof.
  intros H. unfold htons, to_u16. rewrite (Z.mod_small port) by lia.
  destruct big_endian; [lia|].
  rewrite bswap16_arith by exact H.
  assert (0 <= port / 256 < 256)
    by (split; [apply Z.div_pos; lia | apply Z.div_lt_upper_bound; lia]).
  assert (0 <= port mod 256 < 256) by (apply Z.mod_pos_bound; lia).
  lia.
Qed.

Lemma length_store_bytes_ge (off : nat) (bs mem : list byte) :
  (off <= length mem)%nat -> (off + length bs <= length (store_bytes off bs mem))%nat.
Proof.
  intros H. unfold store_bytes. rewrite !length_app, length_firstn. lia.
Qed.

Lemma length_tagged (family : Z) :
  length (store_u16 sa_family_off family (zeroed sizeof_sockaddr_storage))
  = sizeof_sockaddr_storage.
Proof.
  unfold store_u16. rewrite length_store_bytes; unfold zeroed; rewrite repeat_length.
  - reflexivity.
  - rewrite length_u16_bytes. cbv. lia.
Qed.

(** The storage after the three writes of a successful construction: the
    family tag, the binary address at [off], the port. *)
Lemma filled_storage (family port : Z) (off : nat) (bin : list byte) :
  0 <= family < 65536 -> 0 <= port < 65536 ->
  (4 <= off <= sizeof_sockaddr_storage)%nat ->
  let tagged := store_u16 sa_family_off family (zeroed sizeof_sockaddr_storage) in
  let final := store_u16 sin_port_off (htons port) (store_bytes off bin tagged) in
  load_u16 sa_family_off final = family /\
  load_bytes off (length bin) final = bin /\
  load_u16 sin_port_off final = htons port /\
  load_bytes sin_port_off 2 final = [byte_of_Z (port / 256); byte_of_Z port].
Proof.
  intros Hf Hp Hoff tagged final.
  assert (Ht : length tagged = sizeof_sockaddr_storage) by apply length_tagged.
  assert (Hm : (off + length bin <= length (store_bytes off bin tagged))%nat)
    by (apply length_store_bytes_ge; lia).
  unfold sin_port_off, sa_family_off in *.
  repeat split.
  - unfold final, load_u16, store_u16.
    rewrite load_store_before by lia.
    rewrite load_store_before by lia.
    fold (load_u16 0 tagged). unfold tagged.
    rewrite load_store_u16 by lia.
    unfold to_u16. apply Z.mod_small. exact Hf.
  - unfold final, store_u16.
    rewrite load_store_after by (rewrite ?length_u16_bytes; lia).
    apply load_store_same. lia.
  - unfold final. rewrite load_store_u16 by lia.
    unfold to_u16. apply Z.mod_small, htons_range, Hp.
  - unfold final. rewrite load_bytes_store_u16 by lia.
    apply u16_bytes_htons, Hp.
Qed.

Lemma sa_family_readback (family : Z) :
  0 <= family < 65536 ->
  load_u16 sa_family_off
    (store_u16 sa_family_off family (zeroed sizeof_sockaddr_storage)) = family.
Proof.
  intros H. rewrite load_store_u16 by (unfold sa_family_off; lia).
  apply Z.mod_small, H.
Qed.

(** C3.  For a family among INET and INET6, a text that [inet_pton] accepts
    for that family and a port in 0..65535, the constructed [Address] is
    valid, its storage carries the family tag, the binary form of the text
    in the address member of that family, and the port in network byte
    order: the stored 16-bit member is [htons port], that is the bytes
    [port / 256] then [port mod 256]. *)
Theorem Address_ctor_valid (family : AddressFamily) (ip : string) (port : Z) :
  family = INET \/ family = INET6 ->
  parses family ip ->
  0 <= port < 65536 ->
  let a := Address_ctor family ip port in
  operator_bool a = Holds true /\
  load_u16 sa_family_off (name a) = family /\
  load_bytes (addr_off family) (length (binary_form family ip)) (name a)
    = binary_form family ip /\
  load_u16 sin_port_off (name a) = htons port /\
  load_bytes sin_port_off 2 (name a) = [byte_of_Z (port / 256); byte_of_Z port].
Proof.
  intros Hfam Hparse Hport a.
  assert (Hrange : 0 <= family < 65536).
  { destruct Hfam; subst family; [apply AF_INET_range | apply AF_INET6_range]. }
  assert (Hoff : (4 <= addr_off family <= sizeof_sockaddr_storage)%nat).
  { unfold addr_off. destruct (family =? INET); cbv; lia. }
  pose proof (filled_storage family port (addr_off family)
                (binary_form family ip) Hrange Hport Hoff) as Hfill.
  cbv zeta in Hfill.
  unfold parses in Hparse. unfold binary_form in *.
  subst a. unfold Address_ctor, operator_bool, name, addr_off in *.
  rewrite (sa_family_readback family Hrange).
  destruct (inet_pton family ip) as [status written] eqn:Epton.
  cbn [fst snd] in *. subst status. cbn [Z.eqb orb].
  destruct Hfam as [-> | ->].
  - rewrite Z.eqb_refl in *. cbn [state_ address_]. split; [reflexivity | exact Hfill].
  - assert (E : (INET6 =? INET) = false)
      by (apply Z.eqb_neq; intro E; apply AF_distinct; symmetry; exact E).
    rewrite E in *. rewrite Z.eqb_refl.
    cbn [state_ address_]. split; [reflexivity | exact Hfill].
Qed.

(** C4.  When the family is none of INET and INET6, or the text fails to
    parse for the family ([inet_pton] returns 0 or -1), the constructed
    [Address] is invalid. *)
Theorem Address_ctor_invalid (family : AddressFamily) (ip : string) (port : Z) :
  (family <> INET /\ family <> INET6) \/ parse_fails family ip ->
  operator_bool (Address_ctor family ip port) = Holds false.
Proof.
  intros H. unfold Address_ctor, operator_bool.
  destruct (Z.eqb_spec family INET) as [E4 | N4];
    [| destruct (Z.eqb_spec family INET6) as [E6 | N6]; [| reflexivity]].
  all: assert (Hrange : 0 <= family < 65536)
         by (subst family; first [apply AF_INET_range | apply AF_INET6_range]).
  all: rewrite (sa_family_readback family Hrange).
  all: destruct H as [[H4 H6] | Hfail]; [congruence |].
  all: unfold parse_fails in Hfail.
  all: destruct (inet_pton family ip) as [status written]; cbn [fst] in Hfail.
  all: destruct Hfail as [-> | ->]; reflexivity.
Qed.

(** C8.  A default-constructed [Address] has every byte of its storage zero
    and a stored length of zero. *)
Theorem Address_default_zeroed (prior : cell bool) :
  address_ (Address_default prior) = zeroed sizeof_sockaddr_storage /\
  Forall (eq x00) (name (Address_default prior)) /\
  length (name (Address_default prior)) = sizeof_sockaddr_storage /\
  length_ (Address_default prior) = 0 /\
  size (Address_default prior) = 0.
Proof.
  unfold Address_default, name, size, zeroed. cbn [address_ length_].
  split; [reflexivity | split; [| split; [apply repeat_length | auto]]].
  apply Forall_forall. intros b Hb. symmetry. exact (repeat_spec _ _ _ Hb).
Qed.


(** C10.  The parameterized constructor stores [sizeof (sockaddr_storage)]
    as the length, whatever the family, the text and the port, whether or
    not the text parsed; [size ()] returns it. *)
Theorem Address_ctor_length (family : AddressFamily) (ip : string) (port : Z) :
  length_ (Address_ctor family ip port) = Z.of_nat sizeof_sockaddr_storage /\
  size (Address_ctor family ip port) = Z.of_nat sizeof_sockaddr_storage.
Proof.
  unfold size, Address_ctor.
  destruct (family =? INET); [| destruct (family =? INET6)].
  1,2: destruct (inet_pton _ ip) as [status written];
       destruct ((status =? 0) || (status =? -1)); split; reflexivity.
  split; reflexivity.
Qed.

End AddressProperties.

(** ** The single-call wrappers *)

Section SocketProperties.
Context {P : Platform} {W : Type} {K : Kernel W}.

(** C6.  [Receive (char*, int, int)], [ReceiveFrom (char*, size_t, int,
    sockaddr*, socklen_t* )], [Send (const char*, int, int)] and [SendTo
    (const char*, int, int, sockaddr*, socklen_t)] return the value the
    system call returned and leave the world as that one call left it: no
    second call, no translation of the value. *)
Theorem single_shot_wrappers (s : Socket) (buffer : list byte) (length flags : Z)
    (from to : option (list byte)) (fromLength : option Z) (toLength : Z) (w : W) :
  (recv_status (Receive s buffer length flags w)
     = recv_status (sys_recv (_socket s) length flags w) /\
   world_after (Receive s buffer length flags w)
     = world_after (sys_recv (_socket s) length flags w)) /\
  (recvfrom_status (ReceiveFrom s buffer length flags from fromLength w)
     = recvfrom_status (sys_recvfrom (_socket s) length flags from fromLength w) /\
   world_after (ReceiveFrom s buffer length flags from fromLength w)
     = world_after (sys_recvfrom (_socket s) length flags from fromLength w)) /\
  Send s buffer length flags w = sys_send (_socket s) buffer length flags w /\
  SendTo s buffer length flags to toLength w
    = sys_sendto (_socket s) buffer length flags to toLength w.
Proof.
  unfold Receive, ReceiveFrom, Send, SendTo, bind, ret, recv_status, recvfrom_status.
  repeat split.
  - destruct (sys_recv _ _ _ w) as [[[status data] w'] | |]; reflexivity.
  - destruct (sys_recv _ _ _ w) as [[[status data] w'] | |]; reflexivity.
  - destruct (sys_recvfrom _ _ _ _ _ w) as [[[[[status data] f] l] w'] | |]; reflexivity.
  - destruct (sys_recvfrom _ _ _ _ _ w) as [[[[[status data] f] l] w'] | |]; reflexivity.
  - destruct (sys_send _ _ _ _ w) as [[status w'] | |]; reflexivity.
  - destruct (sys_sendto _ _ _ _ _ _ w) as [[status w'] | |]; reflexivity.
Qed.

(** C7.  [Shutdown] returns [true] exactly when the status of the system
    call is not the error value [SOCKET_ERROR], and makes that one call. *)
Theorem Shutdown_reports_success (s : Socket) (flag : ShutdownFlags) (w : W) :
  (fst (Shutdown s flag w) = true <->
   fst (sys_shutdown (_socket s) (ShutdownFlags_int flag) w) <> SOCKET_ERROR) /\
  snd (Shutdown s flag w) = snd (sys_shutdown (_socket s) (ShutdownFlags_int flag) w).
Proof.
  unfold Shutdown.
  destruct (sys_shutdown _ _ w) as [status w']. cbn [fst snd].
  split; [| reflexivity].
  rewrite negb_true_iff. apply Z.eqb_neq.
Qed.

End SocketProperties.

(** ** Calls made, as a logging kernel records them *)

Section CallLog.
Context {P : Platform} {W : Type} {K : Kernel W}.

(** Each single-call wrapper that returns has added one entry to the log. *)
Lemma Receive_logs_one_call (s : Socket) buffer length flags (w : W) log r w' log' :
  Receive (K := logging K) s buffer length flags (w, log) = Returns (r, (w', log')) ->
  log' = log ++ [CallRecv (_socket s) length flags].
Proof.
  unfold Receive, bind, ret. cbn [sys_recv logging]. unfold logged. cbn [fst snd].
  destruct (sys_recv _ _ _ w) as [[[status data] w1] | |]; intros H; now inversion H.
Qed.

Lemma Send_logs_one_call (s : Socket) buffer length flags (w : W) log r w' log' :
  Send (K := logging K) s buffer length flags (w, log) = Returns (r, (w', log')) ->
  log' = log ++ [CallSend (_socket s) length flags].
Proof.
  unfold Send, bind, ret. cbn [sys_send logging]. unfold logged. cbn [fst snd].
  destruct (sys_send _ _ _ _ w) as [[status w1] | |]; intros H; now inversion H.
Qed.

Lemma Socket_dtor_log (s : Socket) (w : W) (log : list Call) :
  snd (snd (Socket_dtor (K := logging K) s (w, log)))
  = log ++ [close_call (_socket s)].
Proof.
  unfold Socket_dtor, nsCloseSocket, close_call.
  cbn [sys_close sys_closesocket logging]. unfold logged_total. cbn [fst snd].
  destruct _WIN32; [destruct (sys_closesocket _ w) | destruct (sys_close _ w)];
    reflexivity.
Qed.

(** Leaving a block makes one close call per object, last declared first. *)
Lemma leave_scope_log (objs : list Socket) (w : W) (log : list Call) :
  snd (leave_scope (K := logging K) objs (w, log))
  = log ++ map (fun s => close_call (_socket s)) (rev objs).
Proof.
  induction objs as [| s objs IH]; cbn [leave_scope fold_right rev map].
  - now rewrite app_nil_r.
  - fold (leave_scope (K := logging K) objs (w, log)).
    destruct (leave_scope (K := logging K) objs (w, log)) as [w1 log1] eqn:E.
    cbn [snd] in IH. rewrite Socket_dtor_log, IH, map_app, app_assoc.
    reflexivity.
Qed.

Lemma closes_close_call (fd fd' : SOCKET) :
  closes_descriptor fd (close_call fd') = (fd' =? fd).
Proof. unfold close_call. destruct _WIN32; reflexivity. Qed.

Lemma close_count_calls (fd : SOCKET) (fds : list SOCKET) :
  close_count fd (map close_call fds) = count_occ Z.eq_dec fds fd.
Proof.
  unfold close_count.
  induction fds as [| fd' fds IH]; [reflexivity |].
  cbn [map filter count_occ]. rewrite closes_close_call.
  destruct (Z.eq_dec fd' fd) as [-> | N].
  - rewrite Z.eqb_refl. cbn [length]. now rewrite IH.
  - apply Z.eqb_neq in N. now rewrite N.
Qed.

(** C5, as the code has it.  The destructor makes exactly one close call on
    the wrapped descriptor, so when the objects of a block wrap pairwise
    distinct descriptors (no object is a copy of another, none wraps a
    descriptor twice), every wrapped descriptor is closed exactly once when
    the block ends.  The type itself does not prevent copies. *)
Theorem distinct_owners_close_once (objs : list Socket) (w : W) :
  NoDup (map _socket objs) ->
  closed_exactly_once objs w.
Proof.
  intros Hnd s Hin. rewrite leave_scope_log. cbn [app].
  rewrite <- (map_map _socket close_call), close_count_calls, map_rev.
  apply NoDup_count_occ'.
  - apply NoDup_rev, Hnd.
  - apply in_rev. rewrite rev_involutive. now apply in_map.
Qed.

End CallLog.

(** ** The chunked [Receive] *)

Section ChunkedReceive.
Context {P : Platform} {W : Type} {K : Kernel W}.

Lemma reads_length (n : nat) (fd : SOCKET) (len flags : Z) (w w' : W) rs :
  reads n fd len flags w = Returns (rs, w') -> length rs = n.
Proof.
  revert w rs. induction n as [| n IH]; intros w rs; cbn [reads]; unfold bind, ret.
  - intros H. now inversion H.
  - destruct (sys_recv fd len flags w) as [[r w1] | |]; try discriminate.
    destruct (reads n fd len flags w1) as [[rs1 w2] | |] eqn:E; try discriminate.
    intros H. inversion H; subst. cbn [length]. f_equal. exact (IH _ _ E).
Qed.

Lemma reads_step (n : nat) (fd : SOCKET) (len flags : Z) (w : W) :
  reads (S n) fd len flags w
  = match sys_recv fd len flags w with
    | Returns (r, w1) =>
        match reads n fd len flags w1 with
        | Returns (rs, w2) => Returns (r :: rs, w2)
        | Blocks => Blocks
        | OutOfFuel => OutOfFuel
        end
    | Blocks => Blocks
    | OutOfFuel => OutOfFuel
    end.
Proof. reflexivity. Qed.

Lemma chunk_size (what : list byte) :
  length what = Z.to_nat CHAR_MAX -> Z.of_nat (length what) = CHAR_MAX.
Proof. intros ->. pose proof CHAR_MAX_pos. lia. Qed.

Lemma Receive_loop_reads (s : Socket) (flags : ReceiveFlags) (n : nat) :
  forall (fuel : nat) (what buffer : list byte) (w w' : W) pre last,
    length what = Z.to_nat CHAR_MAX ->
    reads (S n) (_socket s) CHAR_MAX (ReceiveFlags_int flags) w
      = Returns (pre ++ [last], w') ->
    Forall (fun r => fst r = CHAR_MAX) pre ->
    fst last <> CHAR_MAX ->
    (n < fuel)%nat ->
    Receive_loop fuel s flags what buffer w
      = Returns ((fst last, buffer ++ appended what (pre ++ [last])), w').
Proof.
  induction n as [| n IH]; intros fuel what buffer w w' pre last Hlen Hreads Hpre Hlast Hfuel.
  all: destruct fuel as [| fuel]; [lia |].
  all: rewrite reads_step in Hreads.
  all: cbn [Receive_loop]; unfold Receive, bind, ret.
  all: rewrite (chunk_size what Hlen).
  all: destruct (sys_recv (_socket s) CHAR_MAX (ReceiveFlags_int flags) w)
         as [[[status data] w1] | |]; try discriminate.
  - cbn [reads] in Hreads. unfold ret in Hreads.
    injection Hreads as Hrs Hw. subst w1.
    destruct pre as [| p pre]; cbn [app] in Hrs.
    + injection Hrs as Hp. subst last. cbn [fst] in *.
      apply Z.eqb_neq in Hlast. rewrite Hlast.
      cbn [app appended]. now rewrite app_nil_r.
    + injection Hrs as Hp Hnil.
      now apply app_cons_not_nil in Hnil.
  - destruct (reads (S n) (_socket s) CHAR_MAX (ReceiveFlags_int flags) w1)
      as [[rs w2] | |] eqn:E; try discriminate.
    injection Hreads as Hrs Hw. subst w2.
    destruct pre as [| p pre]; cbn [app] in Hrs.
    + apply reads_length in E. injection Hrs as Hp Hnil.
      rewrite Hnil in E. discriminate E.
    + injection Hrs as Hp Hrest. subst p rs.
      inversion Hpre as [| ? ? Hhead Htail]; subst. cbn [fst] in Hhead.
      rewrite Hhead, Z.eqb_refl.
      cbn [app appended]. rewrite app_assoc.
      apply IH; try assumption; [now rewrite length_poke | lia].
Qed.

(** C2.  Let the kernel answer [n + 1] consecutive reads of [CHAR_MAX]
    bytes with the results [pre ++ [last]], where every read of [pre]
    returns [CHAR_MAX] and [last] returns another value.  Then the bulk
    [Receive] makes exactly these reads, each of [CHAR_MAX] bytes: it goes on
    after each read that returned [CHAR_MAX], stops at the first that did
    not, and returns the value of that last read; the world is left as the
    [n + 1] reads left it, and the whole chunk vector has been appended to
    the string after each read. *)
Theorem Receive_string_stops_at_first_short_read
    (s : Socket) (flags : ReceiveFlags) (buffer : list byte) (w w' : W)
    (n fuel : nat) (pre : list (Z * list byte)) (last : Z * list byte) :
  reads (S n) (_socket s) CHAR_MAX (ReceiveFlags_int flags) w
    = Returns (pre ++ [last], w') ->
  Forall (fun r => fst r = CHAR_MAX) pre ->
  fst last <> CHAR_MAX ->
  (n < fuel)%nat ->
  Receive_string fuel s buffer flags w
    = Returns ((fst last,
                buffer ++ appended (zeroed (Z.to_nat CHAR_MAX)) (pre ++ [last])),
               w').
Proof.
  intros Hreads Hpre Hlast Hfuel. unfold Receive_string.
  apply Receive_loop_reads with (n := n); try assumption.
  unfold zeroed. apply repeat_length.
Qed.

(** As long as the reads return [CHAR_MAX] the loop goes on: when the first
    [fuel] reads all do, the bound of the model is reached before the call
    returns. *)
Lemma Receive_loop_goes_on (s : Socket) (flags : ReceiveFlags) (fuel : nat) :
  forall (what buffer : list byte) (w w' : W) rs,
    length what = Z.to_nat CHAR_MAX ->
    reads fuel (_socket s) CHAR_MAX (ReceiveFlags_int flags) w = Returns (rs, w') ->
    Forall (fun r => fst r = CHAR_MAX) rs ->
    Receive_loop fuel s flags what buffer w = OutOfFuel.
Proof.
  induction fuel as [| fuel IH]; intros what buffer w w' rs Hlen Hreads Hall;
    [reflexivity |].
  rewrite reads_step in Hreads.
  cbn [Receive_loop]; unfold Receive, bind, ret.
  rewrite (chunk_size what Hlen).
  destruct (sys_recv (_socket s) CHAR_MAX (ReceiveFlags_int flags) w)
    as [[[status data] w1] | |]; try discriminate.
  destruct (reads fuel (_socket s) CHAR_MAX (ReceiveFlags_int flags) w1)
    as [[rs1 w2] | |] eqn:E; try discriminate.
  cbv beta iota in Hreads. inversion Hreads; subst. inversion Hall as [| ? ? Hhead Htail]; subst.
  cbn [fst] in Hhead. rewrite Hhead, Z.eqb_refl.
  eapply IH; eauto. now rewrite length_poke.
Qed.

End ChunkedReceive.

(** * Concrete runs *)

(** ** The reference [inet_pton] *)

Example inet_pton_v4_samples :
  map (fun s => RefInetPton.inet_pton 2 10 2 s)
      ["127.0.0.1"; "255.255.255.255"; "999.1.1.1"; ""; "abc"; "1.2.3"; "01.2.3.4"; "1.2.3.4."]%string
  = [(1, [x7f; x00; x00; x01]); (1, [xff; xff; xff; xff]);
     (0, []); (0, []); (0, []); (0, []); (0, []); (0, [])].
Proof. vm_compute. reflexivity. Qed.

Example inet_pton_v6_samples :
  map (fun s => RefInetPton.inet_pton 2 10 10 s)
      ["::1"; "::"; "fe80::1:2"; "1:2:3:4:5:6:7:8"; "::ffff:1.2.3.4";
       "999.1.1.1"; ""; "abc"; ":"; ":::"; "1::2::3"; "1:2:3:4:5:6:7"; "12345::"]%string
  = [(1, zeroed 15 ++ [x01]); (1, zeroed 16);
     (1, [xfe; x80] ++ zeroed 10 ++ [x00; x01; x00; x02]);
     (1, [x00; x01; x00; x02; x00; x03; x00; x04; x00; x05; x00; x06; x00; x07; x00; x08]);
     (1, zeroed 10 ++ [xff; xff; x01; x02; x03; x04]);
     (0, []); (0, []); (0, []); (0, []); (0, []); (0, []); (0, []); (0, [])].
Proof. vm_compute. reflexivity. Qed.

Import Platforms.

(** ** [Address] on the three platforms *)

Example Address_linux_loopback :
  let a := Address_ctor (P := linux_x86_64) (INET (P := linux_x86_64)) "127.0.0.1" 8080 in
  operator_bool a = Holds true /\
  firstn 8 (name a) = [x02; x00; x1f; x90; x7f; x00; x00; x01] /\
  skipn 8 (name a) = zeroed 120 /\
  size a = 128.
Proof. vm_compute. repeat split. Qed.

Example Address_big_endian_loopback :
  firstn 8 (name (Address_ctor (P := linux_s390x) (INET (P := linux_s390x)) "127.0.0.1" 8080))
  = [x00; x02; x1f; x90; x7f; x00; x00; x01].
Proof. vm_compute. reflexivity. Qed.

Example Address_win32_v6 :
  let a := Address_ctor (P := win32_x86_64) (INET6 (P := win32_x86_64)) "::1" 443 in
  operator_bool a = Holds true /\
  firstn 24 (name a) = [x17; x00; x01; xbb; x00; x00; x00; x00] ++ zeroed 15 ++ [x01].
Proof. vm_compute. repeat split. Qed.

Example Address_malformed_text :
  map (fun '(family, ip) => operator_bool (Address_ctor (P := linux_x86_64) family ip 80))
      [(2, "999.1.1.1"); (2, ""); (2, "abc");
       (10, "999.1.1.1"); (10, ""); (10, "abc"); (99, "127.0.0.1")]%string
  = repeat (Holds false) 7.
Proof. vm_compute. reflexivity. Qed.


(** C3 at INET, "127.0.0.1", port 8080 on Linux. *)
Lemma Address_ctor_valid_witness :
  let inet := INET (P := linux_x86_64) in
  (inet = INET (P := linux_x86_64) \/ inet = INET6 (P := linux_x86_64)) /\
  parses (P := linux_x86_64) inet "127.0.0.1" /\
  0 <= 8080 < 65536 /\
  let a := Address_ctor (P := linux_x86_64) inet "127.0.0.1" 8080 in
  operator_bool a = Holds true /\
  load_u16 (P := linux_x86_64) sa_family_off (name a) = inet /\
  load_bytes (addr_off (P := linux_x86_64) inet)
             (length (binary_form (P := linux_x86_64) inet "127.0.0.1")) (name a)
    = binary_form (P := linux_x86_64) inet "127.0.0.1" /\
  load_u16 (P := linux_x86_64) sin_port_off (name a) = htons (P := linux_x86_64) 8080 /\
  load_bytes sin_port_off 2 (name a) = [byte_of_Z (8080 / 256); byte_of_Z 8080].
Proof.
  intros inet.
  split; [left; reflexivity |].
  split; [reflexivity |].
  split; [lia |].
  apply (Address_ctor_valid (P := linux_x86_64) inet "127.0.0.1" 8080).
  - left; reflexivity.
  - reflexivity.
  - lia.
Defined.

(** C4 at INET, "999.1.1.1" on Linux. *)
Lemma Address_ctor_invalid_witness :
  let inet := INET (P := linux_x86_64) in
  parse_fails (P := linux_x86_64) inet "999.1.1.1" /\
  operator_bool (Address_ctor (P := linux_x86_64) inet "999.1.1.1" 80) = Holds false.
Proof.
  intros inet.
  split; [left; reflexivity |].
  apply (Address_ctor_invalid (P := linux_x86_64) inet "999.1.1.1" 80).
  right. left. reflexivity.
Defined.

(** ** [Socket] over the loopback pair *)

(** C7 on the loopback pair: shutting down end A succeeds, shutting down a
    descriptor that is not open does not. *)
Example Shutdown_loopback :
  fst (Shutdown (P := linux_x86_64) (K := Loopback.kernel) (Socket_wrap 3) BOTH
         Loopback.connected) = true /\
  fst (Shutdown (P := linux_x86_64) (K := Loopback.kernel) (Socket_wrap 7) BOTH
         Loopback.connected) = false.
Proof. vm_compute. split; reflexivity. Qed.

(** C5 at two objects that wrap the two ends of the pair. *)
Lemma distinct_owners_close_once_witness :
  NoDup (map _socket [Socket_wrap 3; Socket_wrap 4]) /\
  closed_exactly_once (P := linux_x86_64) (K := Loopback.kernel)
    [Socket_wrap 3; Socket_wrap 4] Loopback.connected.
Proof.
  assert (H : NoDup (map _socket [Socket_wrap 3; Socket_wrap 4])).
  { cbn. repeat constructor; cbn; intuition discriminate. }
  split; [exact H |].
  exact (distinct_owners_close_once (P := linux_x86_64) (K := Loopback.kernel)
           [Socket_wrap 3; Socket_wrap 4] Loopback.connected H).
Defined.

(** C5 as stated fails: [Socket] can be copied, and a block that holds an
    object and its copy closes the descriptor twice. *)
Lemma copied_Socket_closes_twice :
  let a := Socket_wrap 3 in
  let b := Socket_copy a in
  close_count 3
    (snd (leave_scope (P := linux_x86_64) (K := logging Loopback.kernel) [a; b]
            (Loopback.connected, []))) = 2%nat /\
  ~ closed_exactly_once (P := linux_x86_64) (K := Loopback.kernel) [a; b]
      Loopback.connected.
Proof.
  split; [reflexivity |].
  intros H. specialize (H (Socket_wrap 3) (or_introl eq_refl)).
  vm_compute in H. discriminate H.
Qed.

(** C1 fails on the code.  After A sent the two bytes "hi", B's bulk
    [Receive] returns 2 and leaves 127 bytes in the string: the payload and
    the 125 bytes of the chunk vector the read did not touch. *)
Theorem Receive_string_appends_whole_chunk :
  send_then_receive (P := linux_x86_64) 4 (bytes_of_string "hi") false
    = Returns (2, bytes_of_string "hi" ++ zeroed 125) /\
  bytes_of_string "hi" ++ zeroed 125 <> bytes_of_string "hi".
Proof. split; [vm_compute; reflexivity | discriminate]. Qed.

(** A payload longer than the chunk: the second, short read leaves the tail
    of the first chunk in the vector, and it is appended again. *)
Example Receive_string_long_payload :
  let head := repeat x61 127 in
  send_then_receive (P := linux_x86_64) 4 (head ++ [x62; x63; x64]) false
    = Returns (3, head ++ [x62; x63; x64] ++ repeat x61 124).
Proof. vm_compute. reflexivity. Qed.

(** A payload of exactly the chunk size: the loop asks for more.  With the
    connection still open the second read blocks; once the sender has shut
    down, it returns 0 and the first chunk is appended a second time. *)
Example Receive_string_exact_chunk :
  send_then_receive (P := linux_x86_64) 4 (repeat x61 127) false = Blocks /\
  send_then_receive (P := linux_x86_64) 4 (repeat x61 127) true
    = Returns (0, repeat x61 127 ++ repeat x61 127).
Proof. vm_compute. split; reflexivity. Qed.

(** C2 on the loopback pair with 130 bytes in flight towards B: a read of
    127 bytes, then a read of 3. *)
Lemma Receive_string_stops_at_first_short_read_witness :
  let head := repeat x61 127 in
  let w := Loopback.mkWorld 3 4 [] (head ++ [x62; x63; x64]) false false in
  let w' := Loopback.mkWorld 3 4 [] [] false false in
  let pre := [(127, head)] in
  let last := (3, [x62; x63; x64]) in
  reads (K := Loopback.kernel) 2 4 (CHAR_MAX (Platform := linux_x86_64)) 0 w
    = Returns (pre ++ [last], w') /\
  Forall (fun r => fst r = CHAR_MAX (Platform := linux_x86_64)) pre /\
  fst last <> CHAR_MAX (Platform := linux_x86_64) /\
  (1 < 2)%nat /\
  Receive_string (P := linux_x86_64) (K := Loopback.kernel) 2 (Socket_wrap 4) [] RF_NONE w
    = Returns ((3, head ++ [x62; x63; x64] ++ repeat x61 124), w').
Proof.
  intros head w w' pre last.
  assert (H1 : reads (K := Loopback.kernel) 2 4 (CHAR_MAX (Platform := linux_x86_64)) 0 w
               = Returns (pre ++ [last], w')) by (vm_compute; reflexivity).
  assert (H2 : Forall (fun r => fst r = CHAR_MAX (Platform := linux_x86_64)) pre)
    by (repeat constructor).
  assert (H3 : fst last <> CHAR_MAX (Platform := linux_x86_64)) by discriminate.
  assert (H4 : (1 < 2)%nat) by lia.
  split; [exact H1 | split; [exact H2 | split; [exact H3 | split; [exact H4 |]]]].
  exact (Receive_string_stops_at_first_short_read (P := linux_x86_64)
           (K := Loopback.kernel) (Socket_wrap 4) RF_NONE [] w w' 1 2 pre last
           H1 H2 H3 H4).
Defined.

(** * Further properties *)

(** ** What the bulk [Receive] does to the string, for any kernel *)

Section ChunkedReceiveGrowth.
Context {P : Platform} {W : Type} {K : Kernel W}.



Lemma poke_nothing (what : list byte) : poke [] what = what.
Proof. unfold poke. cbn [length skipn app]. apply firstn_all. Qed.

(** X2.  A first read that fails or finds the stream closed (any status
    other than [CHAR_MAX], nothing deposited) still makes the bulk [Receive]
    append a whole chunk of zero bytes to the string before it returns that
    status. *)
Theorem Receive_string_failed_read_appends_zeros
    (s : Socket) (flags : ReceiveFlags) (fuel : nat) (buffer : list byte)
    (w w' : W) (status : Z) :
  sys_recv (_socket s) CHAR_MAX (ReceiveFlags_int flags) w
    = Returns ((status, []), w') ->
  status <> CHAR_MAX ->
  Receive_string (S fuel) s buffer flags w
    = Returns ((status, buffer ++ zeroed (Z.to_nat CHAR_MAX)), w').
Proof.
  intros Hrecv Hstatus. unfold Receive_string. cbn [Receive_loop].
  unfold Receive, bind, ret.
  rewrite chunk_size by (unfold zeroed; apply repeat_length).
  rewrite Hrecv. apply Z.eqb_neq in Hstatus. rewrite Hstatus.
  now rewrite poke_nothing.
Qed.

Lemma Receive_loop_blocks (s : Socket) (flags : ReceiveFlags) (k : nat) :
  forall (fuel : nat) (what buffer : list byte) (w w1 : W) rs,
    length what = Z.to_nat CHAR_MAX ->
    reads k (_socket s) CHAR_MAX (ReceiveFlags_int flags) w = Returns (rs, w1) ->
    Forall (fun r => fst r = CHAR_MAX) rs ->
    sys_recv (_socket s) CHAR_MAX (ReceiveFlags_int flags) w1 = Blocks ->
    (k < fuel)%nat ->
    Receive_loop fuel s flags what buffer w = Blocks.
Proof.
  induction k as [| k IH]; intros fuel what buffer w w1 rs Hlen Hreads Hall Hblock Hfuel.
  all: destruct fuel as [| fuel]; [lia |].
  all: cbn [Receive_loop]; unfold Receive, bind, ret.
  all: rewrite (chunk_size what Hlen).
  - cbn [reads] in Hreads. unfold ret in Hreads.
    injection Hreads as Hrs Hw. subst w1. now rewrite Hblock.
  - rewrite reads_step in Hreads.
    destruct (sys_recv (_socket s) CHAR_MAX (ReceiveFlags_int flags) w)
      as [[[status data] w2] | |]; try discriminate.
    destruct (reads k (_socket s) CHAR_MAX (ReceiveFlags_int flags) w2)
      as [[rs1 w3] | |] eqn:E; try discriminate.
    injection Hreads as Hrs Hw. subst rs w3.
    inversion Hall as [| ? ? Hhead Htail]; subst. cbn [fst] in Hhead.
    rewrite Hhead, Z.eqb_refl.
    apply (IH fuel _ _ w2 w1 rs1); try assumption; [now rewrite length_poke | lia].
Qed.

(** X3.  When [k] reads return [CHAR_MAX] and the next one blocks, the bulk
    [Receive] does not return: it blocks in the read it makes after the
    last full chunk. *)
Theorem Receive_string_blocks_after_full_chunks
    (s : Socket) (flags : ReceiveFlags) (k fuel : nat) (buffer : list byte)
    (w w1 : W) (rs : list (Z * list byte)) :
  reads k (_socket s) CHAR_MAX (ReceiveFlags_int flags) w = Returns (rs, w1) ->
  Forall (fun r => fst r = CHAR_MAX) rs ->
  sys_recv (_socket s) CHAR_MAX (ReceiveFlags_int flags) w1 = Blocks ->
  (k < fuel)%nat ->
  Receive_string fuel s buffer flags w = Blocks.
Proof.
  intros Hreads Hall Hblock Hfuel. unfold Receive_string.
  apply (Receive_loop_blocks s flags k fuel _ buffer w w1 rs); try assumption.
  unfold zeroed. apply repeat_length.
Qed.

(** X4.  While the reads return [CHAR_MAX] the bulk [Receive] does not
    return: if each of the first [fuel] reads does, the call is still in
    its loop after [fuel] iterations. *)
Theorem Receive_string_loops_on_full_chunks
    (s : Socket) (flags : ReceiveFlags) (fuel : nat) (buffer : list byte)
    (w w' : W) (rs : list (Z * list byte)) :
  reads fuel (_socket s) CHAR_MAX (ReceiveFlags_int flags) w = Returns (rs, w') ->
  Forall (fun r => fst r = CHAR_MAX) rs ->
  Receive_string fuel s buffer flags w = OutOfFuel.
Proof.
  intros Hreads Hall. unfold Receive_string.
  apply (Receive_loop_goes_on s flags fuel _ buffer w w' rs); try assumption.
  unfold zeroed. apply repeat_length.
Qed.

End ChunkedReceiveGrowth.

(** ** The bulk [Receive] over the loopback pair *)

Section LoopbackRoundTrip.
Context {P : Platform}.












End LoopbackRoundTrip.

(** ** The storage of a constructed [Address], byte by byte *)

Section AddressStorage.
Context {P : Platform}.

Lemma Address_ctor_state (family : AddressFamily) (ip : string) (port : Z) :
  state_ (Address_ctor family ip port)
  = Holds (((family =? INET) || (family =? INET6))
           && negb ((fst (inet_pton family ip) =? 0)
                    || (fst (inet_pton family ip) =? -1))).
Proof.
  unfold Address_ctor.
  destruct (Z.eqb_spec family INET) as [E4 | N4];
    [| destruct (Z.eqb_spec family INET6) as [E6 | N6]; [| reflexivity]].
  all: assert (Hrange : 0 <= family < 65536)
         by (subst family; first [apply AF_INET_range | apply AF_INET6_range]).
  all: rewrite (sa_family_readback family Hrange).
  all: destruct (inet_pton family ip) as [status written]; cbn [fst].
  all: destruct ((status =? 0) || (status =? -1)); reflexivity.
Qed.

(** X8.  The parameterized constructor always leaves the validity flag
    defined, and it is [true] exactly when the family is INET or INET6 and
    [inet_pton] returned neither 0 nor -1 (any other status counts as
    success). *)
Theorem Address_ctor_validity (family : AddressFamily) (ip : string) (port : Z) :
  (exists b : bool, operator_bool (Address_ctor family ip port) = Holds b) /\
  (operator_bool (Address_ctor family ip port) = Holds true <->
   (family = INET \/ family = INET6) /\
   fst (inet_pton family ip) <> 0 /\ fst (inet_pton family ip) <> -1).
Proof.
  unfold operator_bool. rewrite Address_ctor_state.
  split; [eexists; reflexivity |].
  split.
  - intros H. injection H as H.
    apply andb_true_iff in H. destruct H as [Hfam Hst].
    apply orb_true_iff in Hfam. rewrite !Z.eqb_eq in Hfam.
    apply negb_true_iff, orb_false_iff in Hst. rewrite !Z.eqb_neq in Hst.
    tauto.
  - intros [Hfam [H0 H1]]. f_equal.
    apply andb_true_iff. split.
    + apply orb_true_iff. rewrite !Z.eqb_eq. exact Hfam.
    + apply negb_true_iff, orb_false_iff. rewrite !Z.eqb_neq. tauto.
Qed.

Lemma u16_bytes_pair (v : Z) : exists b0 b1, u16_bytes v = [b0; b1].
Proof. unfold u16_bytes. destruct big_endian; eauto. Qed.

(** X9.  A valid INET address whose text [inet_pton] converted to 4 bytes:
    the 128 bytes of storage are the family tag, the port (high byte
    first), the 4 address bytes, and 120 zero bytes. *)
Theorem Address_ctor_layout_INET (ip : string) (port : Z) :
  parses INET ip ->
  length (binary_form INET ip) = 4%nat ->
  0 <= port < 65536 ->
  name (Address_ctor INET ip port)
  = u16_bytes INET ++ [byte_of_Z (port / 256); byte_of_Z port]
      ++ binary_form INET ip ++ zeroed 120.
Proof.
  unfold parses, binary_form, name, Address_ctor. intros Hparse Hlen Hport.
  rewrite (sa_family_readback INET AF_INET_range), Z.eqb_refl.
  destruct (inet_pton INET ip) as [status written]. cbn [fst snd] in *.
  subst status. cbn [Z.eqb orb address_].
  unfold store_u16. rewrite (u16_bytes_htons port Hport).
  destruct (u16_bytes_pair INET) as (f0 & f1 & ->).
  destruct written as [| a [| b [| c [| d [| ? ?]]]]]; try discriminate.
  reflexivity.
Qed.

(** X10.  A valid INET6 address whose text [inet_pton] converted to 16
    bytes: the family tag, the port (high byte first), 4 zero bytes (the flow
    information), the 16 address bytes, and 104 zero bytes (the scope
    identifier and the rest of the storage). *)
Theorem Address_ctor_layout_INET6 (ip : string) (port : Z) :
  parses INET6 ip ->
  length (binary_form INET6 ip) = 16%nat ->
  0 <= port < 65536 ->
  name (Address_ctor INET6 ip port)
  = u16_bytes INET6 ++ [byte_of_Z (port / 256); byte_of_Z port]
      ++ zeroed 4 ++ binary_form INET6 ip ++ zeroed 104.
Proof.
  unfold parses, binary_form, name, Address_ctor. intros Hparse Hlen Hport.
  rewrite (sa_family_readback INET6 AF_INET6_range), Z.eqb_refl.
  replace (INET6 =? INET) with false
    by (symmetry; apply Z.eqb_neq; intro E; apply AF_distinct; symmetry; exact E).
  destruct (inet_pton INET6 ip) as [status written]. cbn [fst snd] in *.
  subst status. cbn [Z.eqb orb address_].
  unfold store_u16. rewrite (u16_bytes_htons port Hport).
  destruct (u16_bytes_pair INET6) as (f0 & f1 & ->).
  do 17 (destruct written as [| ? written]; try discriminate).
  reflexivity.
Qed.

(** X11.  An invalid [Address] (family outside INET and INET6, or text that
    failed to parse) still carries the family it was asked for, truncated to
    the 16 bits of [sa_family]; its port member was never written and is
    zero, whatever port was passed. *)
Theorem Address_ctor_invalid_storage (family : AddressFamily) (ip : string) (port : Z) :
  (family <> INET /\ family <> INET6) \/ parse_fails family ip ->
  load_u16 sa_family_off (name (Address_ctor family ip port)) = to_u16 family /\
  load_bytes sin_port_off 2 (name (Address_ctor family ip port)) = zeroed 2.
Proof.
  intros H. unfold name, Address_ctor.
  pose proof (length_tagged family) as Ht.
  assert (Hport0 : load_bytes sin_port_off 2
                     (store_u16 sa_family_off family (zeroed sizeof_sockaddr_storage))
                   = zeroed 2).
  { unfold store_u16.
    rewrite load_store_after by (rewrite ?length_u16_bytes; cbv; lia).
    reflexivity. }
  assert (Htag : load_u16 sa_family_off
                   (store_u16 sa_family_off family (zeroed sizeof_sockaddr_storage))
                 = to_u16 family)
    by (apply load_store_u16; cbv; lia).
  destruct (Z.eqb_spec family INET) as [E4 | N4];
    [| destruct (Z.eqb_spec family INET6) as [E6 | N6];
       [| cbn [address_]; split; assumption]].
  all: assert (Hrange : 0 <= family < 65536)
         by (subst family; first [apply AF_INET_range | apply AF_INET6_range]).
  all: rewrite (sa_family_readback family Hrange).
  all: destruct H as [[H4 H6] | Hfail]; [congruence |].
  all: unfold parse_fails in Hfail.
  all: destruct (inet_pton family ip) as [status written]; cbn [fst] in Hfail.
  all: replace ((status =? 0) || (status =? -1)) with true
         by (destruct Hfail as [-> | ->]; reflexivity).
  all: cbn [address_]; unfold load_u16 in *.
  all: rewrite !load_store_before by (rewrite ?Ht; cbv; lia).
  all: split; assumption.
Qed.

(** X12.  When [inet_pton] writes no more than the 16 bytes of the largest
    address, the storage keeps its 128 bytes through every path of the
    constructor. *)
Theorem Address_ctor_keeps_capacity (family : AddressFamily) (ip : string) (port : Z) :
  (length (binary_form family ip) <= 16)%nat ->
  length (name (Address_ctor family ip port)) = sizeof_sockaddr_storage.
Proof.
  unfold binary_form, name, Address_ctor. intros Hlen.
  pose proof (length_tagged family) as Ht.
  destruct (Z.eqb_spec family INET) as [E4 | N4];
    [| destruct (Z.eqb_spec family INET6) as [E6 | N6]; [| exact Ht]].
  all: assert (Hrange : 0 <= family < 65536)
         by (subst family; first [apply AF_INET_range | apply AF_INET6_range]).
  all: rewrite (sa_family_readback family Hrange).
  all: destruct (inet_pton family ip) as [status written]; cbn [snd] in Hlen.
  all: assert (Hs : length (store_bytes (addr_off family) written
                      (store_u16 sa_family_off family (zeroed sizeof_sockaddr_storage)))
                    = sizeof_sockaddr_storage)
         by (rewrite length_store_bytes; [exact Ht |];
             rewrite Ht; unfold addr_off; destruct (family =? INET);
             cbv [sin_addr_off sin6_addr_off sizeof_sockaddr_storage]; lia).
  all: unfold addr_off in Hs.
  1: replace (family =? INET) with true in Hs by (symmetry; now apply Z.eqb_eq).
  2: replace (family =? INET) with false in Hs by (symmetry; now apply Z.eqb_neq).
  all: destruct ((status =? 0) || (status =? -1)); cbn [address_]; [exact Hs |].
  all: unfold store_u16 at 1; rewrite length_store_bytes; [exact Hs |].
  all: rewrite Hs, length_u16_bytes; cbv; lia.
Qed.

End AddressStorage.

(** ** Lifetimes and the calls they make *)

Section Lifetimes.
Context {P : Platform} {W : Type} {K : Kernel W}.

Lemma open_close_log (af type protocol : Z) (w : W) (log : list Call) :
  open_close (K := logging K) af type protocol (w, log)
  = (snd (if _WIN32
          then sys_closesocket (fst (sys_socket af type protocol w))
                               (snd (sys_socket af type protocol w))
          else sys_close (fst (sys_socket af type protocol w))
                         (snd (sys_socket af type protocol w))),
     log ++ [CallSocket af type protocol;
             close_call (fst (sys_socket af type protocol w))]).
Proof.
  unfold open_close, Socket_open, Socket_dtor, nsCloseSocket, close_call.
  cbn [sys_socket sys_close sys_closesocket logging]. unfold logged_total.
  cbn [fst snd].
  destruct (sys_socket af type protocol w) as [fd w1]. cbn [fst snd _socket].
  destruct _WIN32;
    [destruct (sys_closesocket fd w1) | destruct (sys_close fd w1)];
    cbn [fst snd]; now rewrite <- app_assoc.
Qed.

(** X13.  Constructing a [Socket (af, type, protocol)] and destroying it
    makes exactly two system calls: [socket], then one close of the very
    descriptor [socket] returned, whether or not that descriptor is valid
    (the destructor does not look at it). *)
Theorem open_then_destroy_closes_what_was_opened
    (af type protocol : Z) (w : W) (log : list Call) :
  snd (open_close (K := logging K) af type protocol (w, log))
  = log ++ [CallSocket af type protocol;
            close_call (fst (sys_socket af type protocol w))].
Proof. now rewrite open_close_log. Qed.

Lemma nsCloseSocket_world (fd : SOCKET) (w : W) :
  snd (nsCloseSocket fd w)
  = snd (if _WIN32 then sys_closesocket fd w else sys_close fd w).
Proof. unfold nsCloseSocket. destruct _WIN32; reflexivity. Qed.

Lemma close_count_pairs (af type protocol : Z) (fd : SOCKET) (fds : list SOCKET) :
  close_count fd
    (flat_map (fun fd' => [CallSocket af type protocol; close_call fd']) fds)
  = count_occ Z.eq_dec fds fd.
Proof.
  unfold close_count.
  induction fds as [| fd' fds IH]; [reflexivity |].
  cbn [flat_map app filter closes_descriptor count_occ].
  rewrite closes_close_call.
  destruct (Z.eq_dec fd' fd) as [-> | N].
  - rewrite Z.eqb_refl. cbn [length]. now rewrite IH.
  - apply Z.eqb_neq in N. now rewrite N.
Qed.

(** X14.  [n] blocks that each open a [Socket] and let it die make [n]
    [socket] calls, each followed at once by the close of the descriptor
    that very call returned: the log is these [n] pairs, and every
    descriptor is closed exactly as many times as [socket] returned it. *)
Theorem open_close_cycles_balanced
    (n : nat) (af type protocol : Z) (w : W) (log : list Call) :
  snd (open_close_cycles (K := logging K) n af type protocol (w, log))
  = log ++ flat_map (fun fd => [CallSocket af type protocol; close_call fd])
             (opened_descriptors n af type protocol w) /\
  length (opened_descriptors n af type protocol w) = n /\
  forall fd : SOCKET,
    close_count fd
      (flat_map (fun fd' => [CallSocket af type protocol; close_call fd'])
         (opened_descriptors n af type protocol w))
    = count_occ Z.eq_dec (opened_descriptors n af type protocol w) fd.
Proof.
  split; [| split; [| intros fd; apply close_count_pairs]].
  - revert w log. induction n as [| n IH]; intros w log;
      cbn [open_close_cycles opened_descriptors].
    + cbn [flat_map]. now rewrite app_nil_r.
    + rewrite open_close_log, IH, <- nsCloseSocket_world.
      destruct (sys_socket af type protocol w) as [fd w1]. cbn [fst snd].
      cbn [flat_map]. now rewrite <- app_assoc.
  - revert w. induction n as [| n IH]; intros w; cbn [opened_descriptors].
    + reflexivity.
    + destruct (sys_socket af type protocol w) as [fd w1]. cbn [length].
      now rewrite IH.
Qed.

(** X15.  For a string whose size fits an [int], [SendTo (const
    std::string&, SendFlags, Address* )] hands the kernel that size as the
    length and, as the destination, the whole storage of the address with
    the length the address reports: [sizeof (sockaddr_storage)] for an
    address built by the parameterized constructor, valid or not, INET or
    INET6, and 0 for a default-constructed address. *)
Theorem SendTo_string_destination
    (s : Socket) (buffer : list byte) (flags : SendFlags)
    (family : AddressFamily) (ip : string) (port : Z) (prior : cell bool) (w : W) :
  Z.of_nat (length buffer) <= INT_MAX ->
  SendTo_string s buffer flags (Some (Address_ctor family ip port)) w
    = sys_sendto (_socket s) (buffer ++ [x00]) (Z.of_nat (length buffer))
        (SendFlags_int flags) (Some (name (Address_ctor family ip port)))
        (Z.of_nat sizeof_sockaddr_storage) w /\
  SendTo_string s buffer flags (Some (Address_default prior)) w
    = sys_sendto (_socket s) (buffer ++ [x00]) (Z.of_nat (length buffer))
        (SendFlags_int flags) (Some (zeroed sizeof_sockaddr_storage)) 0 w.
Proof.
  intros Hint.
  assert (Hlen : size (Address_ctor family ip port) = Z.of_nat sizeof_sockaddr_storage).
  { unfold size, Address_ctor.
    destruct (family =? INET); [| destruct (family =? INET6)];
      try (destruct (inet_pton _ ip) as [status written];
           destruct ((status =? 0) || (status =? -1))); reflexivity. }
  unfold SendTo_string, SendTo, bind, ret. cbn [option_map].
  rewrite Hlen, to_int_small by (unfold INT_MAX in *; lia).
  change (name (Address_default prior)) with (zeroed sizeof_sockaddr_storage).
  change (size (Address_default prior)) with 0.
  split.
  all: match goal with
       | |- context [sys_sendto ?a ?b ?c ?d ?e ?f ?w0] =>
           destruct (sys_sendto a b c d e f w0) as [[status w'] | |]
       end; reflexivity.
Qed.

End Lifetimes.

(** ** The further properties at concrete inputs *)


Lemma Receive_string_failed_read_appends_zeros_witness :
  sys_recv (Kernel := Loopback.kernel) 7 (CHAR_MAX (Platform := linux_x86_64)) 0
    Loopback.connected
    = Returns ((-1, []), Loopback.connected) /\
  -1 <> CHAR_MAX (Platform := linux_x86_64) /\
  Receive_string (P := linux_x86_64) (K := Loopback.kernel) 1 (Socket_wrap 7)
    [] RF_NONE Loopback.connected
    = Returns ((-1, [] ++ zeroed (Z.to_nat (CHAR_MAX (Platform := linux_x86_64)))),
               Loopback.connected).
Proof.
  assert (H1 : sys_recv (Kernel := Loopback.kernel) 7
                 (CHAR_MAX (Platform := linux_x86_64)) 0 Loopback.connected
               = Returns ((-1, []), Loopback.connected)) by reflexivity.
  assert (H2 : -1 <> CHAR_MAX (Platform := linux_x86_64)) by discriminate.
  split; [exact H1 | split; [exact H2 |]].
  exact (Receive_string_failed_read_appends_zeros (P := linux_x86_64)
           (K := Loopback.kernel) (Socket_wrap 7) RF_NONE 0 []
           Loopback.connected Loopback.connected (-1) H1 H2).
Defined.

Lemma Receive_string_blocks_after_full_chunks_witness :
  let head := repeat x61 127 in
  let w := Loopback.mkWorld 3 4 [] head false false in
  let w1 := Loopback.mkWorld 3 4 [] [] false false in
  reads (K := Loopback.kernel) 1 4 (CHAR_MAX (Platform := linux_x86_64)) 0 w
    = Returns ([(127, head)], w1) /\
  Forall (fun r => fst r = CHAR_MAX (Platform := linux_x86_64)) [(127, head)] /\
  sys_recv (Kernel := Loopback.kernel) 4 (CHAR_MAX (Platform := linux_x86_64)) 0 w1
    = Blocks /\
  (1 < 3)%nat /\
  Receive_string (P := linux_x86_64) (K := Loopback.kernel) 3 (Socket_wrap 4)
    [] RF_NONE w = Blocks.
Proof.
  intros head w w1.
  assert (H1 : reads (K := Loopback.kernel) 1 4 (CHAR_MAX (Platform := linux_x86_64)) 0 w
               = Returns ([(127, head)], w1)) by (vm_compute; reflexivity).
  assert (H2 : Forall (fun r => fst r = CHAR_MAX (Platform := linux_x86_64))
                 [(127, head)]) by (repeat constructor).
  assert (H3 : sys_recv (Kernel := Loopback.kernel) 4
                 (CHAR_MAX (Platform := linux_x86_64)) 0 w1 = Blocks) by reflexivity.
  assert (H4 : (1 < 3)%nat) by lia.
  split; [exact H1 | split; [exact H2 | split; [exact H3 | split; [exact H4 |]]]].
  exact (Receive_string_blocks_after_full_chunks (P := linux_x86_64)
           (K := Loopback.kernel) (Socket_wrap 4) RF_NONE 1 3 [] w w1 _ H1 H2 H3 H4).
Defined.

Lemma Receive_string_loops_on_full_chunks_witness :
  let head := repeat x61 127 in
  let w := Loopback.mkWorld 3 4 [] (head ++ head) false false in
  let w' := Loopback.mkWorld 3 4 [] [] false false in
  reads (K := Loopback.kernel) 2 4 (CHAR_MAX (Platform := linux_x86_64)) 0 w
    = Returns ([(127, head); (127, head)], w') /\
  Forall (fun r => fst r = CHAR_MAX (Platform := linux_x86_64))
    [(127, head); (127, head)] /\
  Receive_string (P := linux_x86_64) (K := Loopback.kernel) 2 (Socket_wrap 4)
    [] RF_NONE w = OutOfFuel.
Proof.
  intros head w w'.
  assert (H1 : reads (K := Loopback.kernel) 2 4 (CHAR_MAX (Platform := linux_x86_64)) 0 w
               = Returns ([(127, head); (127, head)], w')) by (vm_compute; reflexivity).
  assert (H2 : Forall (fun r => fst r = CHAR_MAX (Platform := linux_x86_64))
                 [(127, head); (127, head)]) by (repeat constructor).
  split; [exact H1 | split; [exact H2 |]].
  exact (Receive_string_loops_on_full_chunks (P := linux_x86_64)
           (K := Loopback.kernel) (Socket_wrap 4) RF_NONE 2 [] w w' _ H1 H2).
Defined.




Lemma Address_ctor_layout_INET_witness :
  let inet := INET (P := linux_x86_64) in
  parses (P := linux_x86_64) inet "192.168.1.20" /\
  length (binary_form (P := linux_x86_64) inet "192.168.1.20") = 4%nat /\
  0 <= 3000 < 65536 /\
  name (Address_ctor (P := linux_x86_64) inet "192.168.1.20" 3000)
  = [x02; x00] ++ [x0b; xb8] ++ [xc0; xa8; x01; x14] ++ zeroed 120.
Proof.
  intros inet.
  assert (H1 : parses (P := linux_x86_64) inet "192.168.1.20") by reflexivity.
  assert (H2 : length (binary_form (P := linux_x86_64) inet "192.168.1.20") = 4%nat)
    by reflexivity.
  assert (H3 : 0 <= 3000 < 65536) by lia.
  split; [exact H1 | split; [exact H2 | split; [exact H3 |]]].
  exact (Address_ctor_layout_INET (P := linux_x86_64) "192.168.1.20" 3000 H1 H2 H3).
Defined.

Lemma Address_ctor_layout_INET6_witness :
  let inet6 := INET6 (P := win32_x86_64) in
  parses (P := win32_x86_64) inet6 "fe80::1" /\
  length (binary_form (P := win32_x86_64) inet6 "fe80::1") = 16%nat /\
  0 <= 443 < 65536 /\
  name (Address_ctor (P := win32_x86_64) inet6 "fe80::1" 443)
  = [x17; x00] ++ [x01; xbb] ++ zeroed 4
      ++ ([xfe; x80] ++ zeroed 13 ++ [x01]) ++ zeroed 104.
Proof.
  intros inet6.
  assert (H1 : parses (P := win32_x86_64) inet6 "fe80::1") by reflexivity.
  assert (H2 : length (binary_form (P := win32_x86_64) inet6 "fe80::1") = 16%nat)
    by reflexivity.
  assert (H3 : 0 <= 443 < 65536) by lia.
  split; [exact H1 | split; [exact H2 | split; [exact H3 |]]].
  exact (Address_ctor_layout_INET6 (P := win32_x86_64) "fe80::1" 443 H1 H2 H3).
Defined.

Lemma Address_ctor_invalid_storage_witness :
  (65538 <> INET (P := linux_x86_64) /\ 65538 <> INET6 (P := linux_x86_64)) /\
  load_u16 (P := linux_x86_64) sa_family_off
    (name (Address_ctor (P := linux_x86_64) 65538 "127.0.0.1" 8080)) = 2 /\
  load_bytes sin_port_off 2
    (name (Address_ctor (P := linux_x86_64) 65538 "127.0.0.1" 8080)) = [x00; x00].
Proof.
  assert (H : 65538 <> INET (P := linux_x86_64) /\ 65538 <> INET6 (P := linux_x86_64))
    by (split; discriminate).
  split; [exact H |].
  exact (Address_ctor_invalid_storage (P := linux_x86_64) 65538 "127.0.0.1" 8080
           (or_introl H)).
Defined.

Lemma Address_ctor_keeps_capacity_witness :
  let inet6 := INET6 (P := linux_s390x) in
  (length (binary_form (P := linux_s390x) inet6 "::1") <= 16)%nat /\
  length (name (Address_ctor (P := linux_s390x) inet6 "::1" 80)) = 128%nat.
Proof.
  intros inet6.
  assert (H : (length (binary_form (P := linux_s390x) inet6 "::1") <= 16)%nat)
    by (vm_compute; lia).
  split; [exact H |].
  exact (Address_ctor_keeps_capacity (P := linux_s390x) inet6 "::1" 80 H).
Defined.

Lemma SendTo_string_destination_witness :
  let buffer := bytes_of_string "ping" in
  let inet := INET (P := linux_x86_64) in
  let to := Address_ctor (P := linux_x86_64) inet "127.0.0.1" 8080 in
  let w := (Loopback.connected, @nil Call) in
  Z.of_nat (length buffer) <= INT_MAX /\
  SendTo_string (P := linux_x86_64) (K := logging Loopback.kernel)
    (Socket_wrap 3) buffer SF_NONE (Some to) w
    = sys_sendto (Kernel := logging Loopback.kernel) 3 (buffer ++ [x00]) 4 0
        (Some (name to)) 128 w /\
  SendTo_string (P := linux_x86_64) (K := logging Loopback.kernel)
    (Socket_wrap 3) buffer SF_NONE (Some (Address_default Indeterminate)) w
    = sys_sendto (Kernel := logging Loopback.kernel) 3 (buffer ++ [x00]) 4 0
        (Some (zeroed 128)) 0 w.
Proof.
  intros buffer inet to w.
  assert (H0 : Z.of_nat (length buffer) <= INT_MAX) by (vm_compute; discriminate).
  split; [exact H0 |].
  exact (SendTo_string_destination (P := linux_x86_64) (K := logging Loopback.kernel)
           (Socket_wrap 3) buffer SF_NONE inet "127.0.0.1" 8080 Indeterminate w H0).
Defined.
